(** * Flux licensing server: key generation, creation and validation

    A shallow embedding of [Flux/app.py].  The handlers of the Flask
    application that touch the [licenses] and [activations] tables are
    written as functions from a store to a response and a new store:
    [generate_key], [parse_days], [api_create_key], [api_revoke] and
    [api_validate], together with [_clean], the helper every handler
    passes its inputs through.

    Conventions.
    - A Python [str] is a [string]; [strip] removes the ASCII
      whitespace; [str.upper] and [str.lower], which depend on the
      Unicode tables, are taken from the library interface.
    - A naive UTC [datetime] is an integer count of microseconds ([Z]).
    - An SQLite [INTEGER] column is a [Z]; a table is the list of its
      rows in insertion order; the schema's UNIQUE constraints are
      checked by the operations that insert.
    - An exception that no handler catches becomes the response
      [ServerError] (Flask answers 500) and commits nothing. *)

From Stdlib Require Import ZArith List String Ascii Bool Lia.
From Stdlib Require Import Permutation Sorted.
Import ListNotations.

#[local] Open Scope string_scope.
#[local] Open Scope Z_scope.

(** ** Python string operations used by the handlers *)

Module PyStr.

(** The ASCII characters [str.strip()] removes: TAB, LF, VT, FF, CR,
    the separators 0x1c-0x1f and the space. *)
Definition is_space (c : ascii) : bool :=
  let n := nat_of_ascii c in
  ((9 <=? n)%nat && (n <=? 13)%nat) || ((28 <=? n)%nat && (n <=? 32)%nat).

Definition is_lower (c : ascii) : bool :=
  let n := nat_of_ascii c in (97 <=? n)%nat && (n <=? 122)%nat.

Definition is_upper (c : ascii) : bool :=
  let n := nat_of_ascii c in (65 <=? n)%nat && (n <=? 90)%nat.

Definition is_digit (c : ascii) : bool :=
  let n := nat_of_ascii c in (48 <=? n)%nat && (n <=? 57)%nat.

Fixpoint lstrip (s : string) : string :=
  match s with
  | EmptyString => EmptyString
  | String c s' => if is_space c then lstrip s' else s
  end.

Fixpoint rstrip (s : string) : string :=
  match s with
  | EmptyString => EmptyString
  | String c s' =>
      match rstrip s' with
      | EmptyString => if is_space c then EmptyString else String c EmptyString
      | r => String c r
      end
  end.

(** [s.strip()] *)
Definition strip (s : string) : string := rstrip (lstrip s).

(** [s.startswith(c)] and [s.endswith(c)] for a one-character [c]. *)
Definition startswith (s : string) (c : ascii) : bool :=
  match s with
  | String a _ => Ascii.eqb a c
  | EmptyString => false
  end.

Fixpoint endswith (s : string) (c : ascii) : bool :=
  match s with
  | EmptyString => false
  | String a EmptyString => Ascii.eqb a c
  | String _ s' => endswith s' c
  end.

Fixpoint drop_last (s : string) : string :=
  match s with
  | EmptyString => EmptyString
  | String _ EmptyString => EmptyString
  | String a s' => String a (drop_last s')
  end.

(** The slice [s[1:-1]]. *)
Definition slice_1_m1 (s : string) : string :=
  match s with
  | EmptyString => EmptyString
  | String _ s' => drop_last s'
  end.

(** [sep.join(parts)] *)
Fixpoint join (sep : string) (parts : list string) : string :=
  match parts with
  | [] => EmptyString
  | [p] => p
  | p :: rest => p ++ sep ++ join sep rest
  end.

(** The quote characters [_clean] looks for. *)
Definition dquote : ascii := ascii_of_nat 34.
Definition squote : ascii := ascii_of_nat 39.

(** Truth value of a [str]: the empty string is false. *)
Definition nonempty (s : string) : bool :=
  match s with EmptyString => false | _ => true end.

(** [x or <empty str>] for an [x] that is a [str] or [None]. *)
Definition or_empty (x : option string) : string :=
  match x with Some s => s | None => EmptyString end.

Fixpoint all_chars (p : ascii -> bool) (s : string) : bool :=
  match s with
  | EmptyString => true
  | String c s' => p c && all_chars p s'
  end.

End PyStr.
Import PyStr.

(** [_clean]: trim, drop one pair of matching quotes, trim again. *)
Definition _clean (s : option string) : string :=
  let s := strip (or_empty s) in
  if (startswith s dquote && endswith s dquote)
     || (startswith s squote && endswith s squote)
  then strip (slice_1_m1 s)
  else s.

(** ** Library functions the handlers call

    [int(s)], [datetime.fromisoformat(s)], the converter [sqlite3]
    registers for TIMESTAMP columns, [s.upper()] and [s.lower()] belong
    to the Python library, not to the application: the handlers are
    written against this interface, with [None] for a call that raises.
    Of [upper] the development uses one fact: it leaves unchanged a
    text made of the letters A-Z, the digits and the hyphen. *)

Class PyBuiltins := {
  py_int : string -> option Z;
  fromisoformat : string -> option Z;
  convert_timestamp : string -> option Z;
  upper : string -> string;
  lower : string -> string;
  upper_plain :
    forall s,
      all_chars (fun c => is_upper c || is_digit c || Ascii.eqb c "-") s
      = true ->
      upper s = s
}.

(** ** Data model: the rows of [licenses] and [activations] *)

(** A value of a TIMESTAMP column that is not NULL.  In a stored row
    [TDatetime t] is the text the adapter wrote for the datetime [t],
    which the converter reads back as [t], and [TText s] is any other
    text [s]; in a row as the handler holds it, [TDatetime t] is the
    [datetime] and [TText s] a [str]. *)
Inductive timestamp_col : Type :=
| TDatetime (t : Z)
| TText (s : string).

Record License : Type := mkLicense {
  lic_id : Z;
  lic_key : string;
  created_at : Z;
  expires_at : option timestamp_col;
  max_activations : Z;
  revoked : Z;
  notes : string
}.

Record Activation : Type := mkActivation {
  act_id : Z;
  license_id : Z;
  machine_id : string;
  activated_at : Z;
  last_seen : Z
}.

(** The two tables, and the AUTOINCREMENT counter of each. *)
Record DB : Type := mkDB {
  licenses : list License;
  activations : list Activation;
  licenses_seq : Z;
  activations_seq : Z
}.

(** [init_db] on a fresh file: both tables exist and are empty. *)
Definition init_db : DB := mkDB [] [] 0 0.

(** ** The SQL statements of the handlers *)

Module Store.

(** [SELECT * FROM licenses WHERE lic_key = ?], [fetchone()] *)
Definition get_by_key (db : DB) (k : string) : option License :=
  find (fun l => String.eqb (lic_key l) k) (licenses db).

(** [SELECT COUNT( * ) FROM activations WHERE license_id = ?] *)
Definition count_activations (db : DB) (lid : Z) : Z :=
  Z.of_nat (List.length (filter (fun a => license_id a =? lid) (activations db))).

Definition same_binding (lid : Z) (mid : string) (a : Activation) : bool :=
  (license_id a =? lid) && String.eqb (machine_id a) mid.

(** [SELECT * FROM activations WHERE license_id = ? AND machine_id = ?],
    [fetchone()] *)
Definition get_activation (db : DB) (lid : Z) (mid : string)
  : option Activation :=
  find (same_binding lid mid) (activations db).

Definition set_last_seen (now : Z) (a : Activation) : Activation :=
  mkActivation (act_id a) (license_id a) (machine_id a) (activated_at a) now.

(** [UPDATE activations SET last_seen = ? WHERE id = ?] *)
Definition touch_activation (db : DB) (id now : Z) : DB :=
  mkDB (licenses db)
       (map (fun a => if act_id a =? id then set_last_seen now a else a)
            (activations db))
       (licenses_seq db) (activations_seq db).

(** [INSERT INTO activations(license_id, machine_id, activated_at,
    last_seen)]: [None] is the IntegrityError of
    [UNIQUE(license_id, machine_id)]. *)
Definition record_activation (db : DB) (lid : Z) (mid : string) (now : Z)
  : option DB :=
  if existsb (same_binding lid mid) (activations db) then None
  else
    let id := activations_seq db + 1 in
    Some (mkDB (licenses db)
               (activations db ++ [mkActivation id lid mid now now])%list
               (licenses_seq db) id).

(** Largest value an SQLite INTEGER holds. *)
Definition sqlite_int_max : Z := 2 ^ 63 - 1.

(** [INSERT INTO licenses(lic_key, created_at, expires_at,
    max_activations, revoked, notes) VALUES (?, ?, ?, ?, 0, ?)]: [None]
    is the IntegrityError of [lic_key TEXT UNIQUE], or the OverflowError
    of binding an integer SQLite cannot hold. *)
Definition insert_license (db : DB) (k : string) (now : Z)
    (exp : option Z) (max_act : Z) (n : string) : option DB :=
  if existsb (fun l => String.eqb (lic_key l) k) (licenses db) then None
  else if sqlite_int_max <? max_act then None
  else
    let id := licenses_seq db + 1 in
    Some (mkDB (licenses db ++
                  [mkLicense id k now (option_map TDatetime exp) max_act 0 n])%list
               (activations db) id (activations_seq db)).

(** [UPDATE licenses SET revoked = 1 WHERE id = ?] *)
Definition revoke (db : DB) (id : Z) : DB :=
  mkDB (map (fun l =>
               if lic_id l =? id
               then mkLicense (lic_id l) (lic_key l) (created_at l)
                              (expires_at l) (max_activations l) 1 (notes l)
               else l)
            (licenses db))
       (activations db) (licenses_seq db) (activations_seq db).

End Store.
Import Store.

(** ** Utilities *)

(** [string.ascii_uppercase + string.digits] *)
Definition alphabet : string := "ABCDEFGHIJKLMNOPQRSTUVWXYZ0123456789".

(** [secrets.choice(seq)] on the raw draw [r] of the random source. *)
Definition choice (seq : string) (r : nat) : ascii :=
  match String.get (r mod String.length seq) seq with
  | Some c => c
  | None => zero
  end.

(** One group: [group_len] draws, the [start]-th draw first. *)
Fixpoint random_group (rnd : nat -> nat) (start group_len : nat) : string :=
  match group_len with
  | O => EmptyString
  | S n => String (choice alphabet (rnd start))
                  (random_group rnd (S start) n)
  end.

Fixpoint random_parts (rnd : nat -> nat) (start groups group_len : nat)
  : list string :=
  match groups with
  | O => []
  | S g => random_group rnd start group_len
           :: random_parts rnd (start + group_len)%nat g group_len
  end.

(** [generate_key(prefix, groups, group_len)]; [rnd i] is the [i]-th
    draw of [secrets]. *)
Definition generate_key (rnd : nat -> nat) (prefix : string)
    (groups group_len : nat) : string :=
  (prefix ++ "-") ++ join "-" (random_parts rnd 0 groups group_len).

(** The call [generate_key()] with the default arguments. *)
Definition generate_key_default (rnd : nat -> nat) : string :=
  generate_key rnd "FLUX" 4 5.

Section Handlers.
Context {B : PyBuiltins}.

(** [parse_days]: the bare [except] turns every failure of [int] into
    [None]. *)
Definition parse_days (days_str : string) : option Z :=
  match py_int days_str with
  | Some d => if d <=? 0 then None else Some d
  | None => None
  end.

(** Microseconds in a day, and [datetime.max] counted from 1970-01-01. *)
Definition us_per_day : Z := 86400000000.
Definition datetime_max : Z := 253402300799999999.

(** [now + timedelta(days=d)] for a positive [d]: [None] is the
    OverflowError of a [timedelta] beyond 999999999 days or of a date
    beyond [datetime.max]. *)
Definition add_days (now d : Z) : option Z :=
  if 999999999 <? d then None
  else if datetime_max <? now + d * us_per_day then None
  else Some (now + d * us_per_day).

(** The form fields of [POST /api/create_key]; [None] is a field the
    request does not carry. *)
Record create_form : Type := mkForm {
  form_days : option string;
  form_max_activations : option string;
  form_notes : option string
}.

(** [request.form.get(name, default)] *)
Definition form_get (field : option string) (default : string) : string :=
  match field with Some s => s | None => default end.

Inductive admin_response : Type :=
| Unauthorized
| Created (key : string)
| Done
| AdminServerError.

(** [api_create_key]; [logged_in] is the result of [logged_in()]. *)
Definition api_create_key (logged_in : bool) (form : create_form)
    (now : Z) (rnd : nat -> nat) (db : DB) : admin_response * DB :=
  if negb logged_in then (Unauthorized, db)
  else
    let days := parse_days (form_get (form_days form) EmptyString) in
    let max_activations :=
      match py_int (_clean (Some (form_get (form_max_activations form) "1")))
      with
      | Some n => Z.max 1 n
      | None => 1
      end in
    let notes := _clean (Some (form_get (form_notes form) EmptyString)) in
    let lic_key := generate_key_default rnd in
    let expires_at :=
      match days with
      | Some d => option_map Some (add_days now d)
      | None => Some None
      end in
    match expires_at with
    | None => (AdminServerError, db)
    | Some expires_at =>
        match insert_license db lic_key now expires_at max_activations notes
        with
        | Some db' => (Created lic_key, db')
        | None => (AdminServerError, db)
        end
    end.

(** [api_revoke] *)
Definition api_revoke (logged_in : bool) (lic_id : Z) (db : DB)
  : admin_response * DB :=
  if negb logged_in then (Unauthorized, db)
  else (Done, revoke db lic_id).

(** The body of [POST /api/validate]: [None] is a field that is
    missing or null. *)
Record payload : Type := mkPayload {
  payload_key : option string;
  payload_machine_id : option string
}.

(** The responses of [api_validate], named as the verdicts they
    report; [Success] carries the JSON fields [key], [expires_at],
    [remaining_activations] and [notes]. *)
Inductive verdict : Type :=
| MissingKey
| MissingMachineId
| NotFound
| Revoked
| Expired
| ActivationLimitExceeded
| Success (key : string) (expires : option timestamp_col)
          (remaining_activations : Z) (notes : string)
| ServerError.

(** What [fetchone] returns for a stored row of [licenses].  The
    connection is opened with PARSE_DECLTYPES, so a text stored in
    [expires_at TIMESTAMP] goes through the converter of the type while
    the row is fetched: a text the converter rejects makes [fetchone]
    raise ([None]), and an empty text is returned as [None] without the
    converter being called. *)
Definition fetched (row : License) : option License :=
  let with_expiry e :=
    mkLicense (lic_id row) (lic_key row) (created_at row) e
              (max_activations row) (revoked row) (notes row) in
  match expires_at row with
  | Some (TText s) =>
      if nonempty s
      then match convert_timestamp s with
           | Some t => Some (with_expiry (Some (TDatetime t)))
           | None => None
           end
      else Some (with_expiry None)
  | _ => Some row
  end.

(** Lines 273-281: the expiry test, on the row as [fetchone] returned
    it.  The branch of lines 275-279 is for an [expires_at] that is a
    [str]; [fetched] never returns one. *)
Definition expired (lic : License) (now : Z) : bool :=
  match expires_at lic with
  | None => false
  | Some (TDatetime e) => e <? now
  | Some (TText s) =>
      match fromisoformat s with
      | Some e => e <? now
      | None => true
      end
  end.

(** Lines 298-305: the success response, counted on the store after
    the commit. *)
Definition success (db : DB) (lic_key : string) (lic : License) : verdict :=
  let remaining := max_activations lic - count_activations db (lic_id lic) in
  Success lic_key (expires_at lic) (Z.max 0 remaining) (notes lic).

(** [api_validate].  The connection opens its transaction at the
    first INSERT or UPDATE, so what other connections commit after the
    SELECTs is visible to the INSERT: [others] is the effect of those
    commits on the store, the identity for a request that runs alone. *)
Definition api_validate_amid (others : DB -> DB) (db : DB) (p : payload)
    (now : Z) : verdict * DB :=
  let lic_key := upper (_clean (Some (or_empty (payload_key p)))) in
  let machine_id := _clean (Some (or_empty (payload_machine_id p))) in
  if negb (nonempty lic_key) then (MissingKey, db)
  else if negb (nonempty machine_id) then (MissingMachineId, db)
  else
    match get_by_key db lic_key with
    | None => (NotFound, db)
    | Some row =>
        match fetched row with
        | None => (ServerError, db)
        | Some lic =>
            if negb (revoked lic =? 0) then (Revoked, db)
            else if expired lic now then (Expired, db)
            else
              let activation_count := count_activations db (lic_id lic) in
              match get_activation db (lic_id lic) machine_id with
              | Some existing =>
                  let db' := touch_activation db (act_id existing) now in
                  (success db' lic_key lic, db')
              | None =>
                  if max_activations lic <=? activation_count
                  then (ActivationLimitExceeded, db)
                  else
                    match record_activation (others db) (lic_id lic)
                            machine_id now
                    with
                    | Some db' => (success db' lic_key lic, db')
                    | None => (ServerError, others db)
                    end
              end
        end
    end.

(** A validation request served with no other connection writing. *)
Definition api_validate (db : DB) (p : payload) (now : Z) : verdict * DB :=
  api_validate_amid (fun db => db) db p now.

(** A sequence of validation requests, served one after the other. *)
Fixpoint run_validates (db : DB) (calls : list (payload * Z)) : DB :=
  match calls with
  | [] => db
  | (p, now) :: rest => run_validates (snd (api_validate db p now)) rest
  end.

End Handlers.

(** ** A small instance of the library interface

    Enough of the library to run the handlers on concrete requests:
    decimal literals with an optional sign, short tables of
    timestamps, and the change of case of the ASCII letters. *)

Module Sample.

Fixpoint digits_value (acc : Z) (s : string) : option Z :=
  match s with
  | EmptyString => Some acc
  | String c s' =>
      if is_digit c
      then digits_value (10 * acc + (Z.of_nat (nat_of_ascii c) - 48)) s'
      else None
  end.

Definition unsigned_int (s : string) : option Z :=
  if nonempty s then digits_value 0 s else None.

Definition decimal_int (s : string) : option Z :=
  match strip s with
  | String "-" r => option_map Z.opp (unsigned_int r)
  | String "+" r => unsigned_int r
  | r => unsigned_int r
  end.

Definition iso_table (s : string) : option Z :=
  if String.eqb s "1970-01-01T00:00:00" then Some 0
  else if String.eqb s "2100-01-01T00:00:00" then Some 4102444800000000
  else None.

(** The texts the TIMESTAMP converter reads, in the form the adapter
    writes. *)
Definition timestamp_table (s : string) : option Z :=
  if String.eqb s "1970-01-01 00:00:00" then Some 0
  else if String.eqb s "2100-01-01 00:00:00" then Some 4102444800000000
  else None.

Definition ascii_upper_char (c : ascii) : ascii :=
  if is_lower c then ascii_of_nat (nat_of_ascii c - 32) else c.

Fixpoint ascii_upper (s : string) : string :=
  match s with
  | EmptyString => EmptyString
  | String c s' => String (ascii_upper_char c) (ascii_upper s')
  end.

Definition ascii_lower_char (c : ascii) : ascii :=
  if is_upper c then ascii_of_nat (nat_of_ascii c + 32) else c.

Fixpoint ascii_lower (s : string) : string :=
  match s with
  | EmptyString => EmptyString
  | String c s' => String (ascii_lower_char c) (ascii_lower s')
  end.

#[export] Instance builtins : PyBuiltins.
Proof.
  refine {| py_int := decimal_int;
            fromisoformat := iso_table;
            convert_timestamp := timestamp_table;
            upper := ascii_upper;
            lower := ascii_lower;
            upper_plain := _ |}.
  induction s as [|c s IH]; simpl; [reflexivity|].
  intros H. apply andb_prop in H. destruct H as [Hc Hs].
  rewrite (IH Hs). f_equal. unfold ascii_upper_char.
  assert (E : is_lower c = false).
  { apply orb_prop in Hc. destruct Hc as [Hc | Hc].
    - apply orb_prop in Hc.
      unfold is_upper, is_digit, is_lower in *.
      destruct Hc as [Hc | Hc]; apply andb_prop in Hc; destruct Hc as [H1 H2];
        apply Nat.leb_le in H1, H2; apply andb_false_iff;
        rewrite !Nat.leb_gt; lia.
    - apply Ascii.eqb_eq in Hc. now subst c. }
  now rewrite E.
Defined.

End Sample.

(** ** Vocabulary of the properties *)

(** An uppercase letter or a digit. *)
Definition group_char (c : ascii) : bool := is_upper c || is_digit c.

(** A character of a generated key: a group character or the separator. *)
Definition key_char (c : ascii) : bool := group_char c || Ascii.eqb c "-".

(** [take_group n s]: what follows the first [n] characters of [s],
    when these are [n] group characters. *)
Fixpoint take_group (n : nat) (s : string) : option string :=
  match n with
  | O => Some s
  | S n' =>
      match s with
      | String c s' => if group_char c then take_group n' s' else None
      | EmptyString => None
      end
  end.

(** [s] is [groups] groups of [group_len] group characters, joined by
    the separator. *)
Fixpoint groups_format (groups group_len : nat) (s : string) : bool :=
  match groups with
  | O => negb (nonempty s)
  | S g =>
      match take_group group_len s with
      | Some EmptyString => Nat.eqb g 0
      | Some (String c rest) =>
          Ascii.eqb c "-" && negb (Nat.eqb g 0)
          && groups_format g group_len rest
      | None => false
      end
  end.

(** The format FLUX-XXXXX-XXXXX-XXXXX-XXXXX. *)
Definition flux_format (k : string) : bool :=
  match k with
  | String "F" (String "L" (String "U" (String "X" (String "-" rest)))) =>
      groups_format 4 5 rest
  | _ => false
  end.

(** The invariant of the activation table: no license has more
    activation rows than its [max_activations]. *)
Definition within_limit (db : DB) : Prop :=
  forall lic, In lic (licenses db) ->
    count_activations db (lic_id lic) <= max_activations lic.

(** The PRIMARY KEY of [licenses]: no two rows share an [id]. *)
Definition licenses_pk (db : DB) : Prop := NoDup (map lic_id (licenses db)).

(** The key a request is looked up by: cleaned and upper-cased. *)
Definition key_of {B : PyBuiltins} (p : payload) : string :=
  upper (_clean (Some (or_empty (payload_key p)))).

(** The row of [licenses] a request addresses, as the handler holds it
    once [fetchone] has returned. *)
Definition addressed {B : PyBuiltins} (db : DB) (p : payload)
  : option License :=
  match get_by_key db (key_of p) with
  | Some row => fetched row
  | None => None
  end.

(** The machine identifier a request binds. *)
Definition machine_of (p : payload) : string :=
  _clean (Some (or_empty (payload_machine_id p))).

(** The foreign key of [activations] under AUTOINCREMENT: every row
    refers to an [id] the [licenses] table has already given out. *)
Definition activations_fk (db : DB) : Prop :=
  Forall (fun a => license_id a <= licenses_seq db) (activations db).

Definition is_success (v : verdict) : bool :=
  match v with Success _ _ _ _ => true | _ => false end.


(** ** Concrete stores and requests

    Built by running the handlers, over the sample library instance. *)

Module Scenario.

#[local] Existing Instance Sample.builtins.

(** A random source whose [i]-th draw is [i]. *)
Definition seed (i : nat) : nat := i.

(** The key [generate_key()] returns on [seed]. *)
Definition key0 : string := "FLUX-ABCDE-FGHIJ-KLMNO-PQRST".

Definition request (m : string) : payload := mkPayload (Some key0) (Some m).

(** Expiry in 0 days, [max_activations] of -3, no notes. *)
Definition form_one : create_form := mkForm (Some "0") (Some "-3") None.

(** Expiry in 30 days, two activations. *)
Definition form_two : create_form :=
  mkForm (Some "30") (Some "2") (Some " team ").

Definition db_one : DB := snd (api_create_key true form_one 1000 seed init_db).
Definition db_two : DB := snd (api_create_key true form_two 1000 seed init_db).

(** [db_one] after machine m1 has validated, and after the license has
    then been revoked. *)
Definition db_one_bound : DB := snd (api_validate db_one (request "m1") 2000).


(** A license whose expiry column holds a text that is no timestamp. *)
Definition db_bad_expiry : DB :=
  mkDB [mkLicense 1 key0 1000 (Some (TText "next week")) 1 0 EmptyString]
       [] 1 0.

(** A license whose expiry column holds an empty text. *)
Definition db_blank_expiry : DB :=
  mkDB [mkLicense 1 key0 1000 (Some (TText EmptyString)) 1 0 EmptyString]
       [] 1 0.

(** The rows the two creations write. *)
Definition lic_one : License := mkLicense 1 key0 1000 None 1 0 EmptyString.

Definition lic_two : License :=
  mkLicense 1 key0 1000 (Some (TDatetime 2592000001000)) 2 0 "team".

(** Another connection serving the same request of machine m1. *)
Definition racing (d : DB) : DB := snd (api_validate d (request "m1") 2000).

End Scenario.

(** ** The remaining handlers

    Deleting and listing licenses, the [settings] table, the admin
    session, and the logo upload. *)

(** [DELETE FROM licenses WHERE id = ?].  The schema declares
    [ON DELETE CASCADE] for the activations of the license; SQLite
    applies it only on a connection that enforces foreign keys, which
    [get_db] leaves to the default of the library: [foreign_keys] is
    that setting. *)
Definition delete_license (foreign_keys : bool) (db : DB) (id : Z) : DB :=
  mkDB (filter (fun l => negb (lic_id l =? id)) (licenses db))
       (if foreign_keys
        then filter (fun a => negb (license_id a =? id)) (activations db)
        else activations db)
       (licenses_seq db) (activations_seq db).

(** [api_delete] *)
Definition api_delete (foreign_keys logged_in : bool) (lic_id : Z) (db : DB)
  : admin_response * DB :=
  if negb logged_in then (Unauthorized, db)
  else (Done, delete_license foreign_keys db lic_id).

(** [ORDER BY l.created_at DESC]; rows of equal [created_at] come in
    an order SQL leaves open. *)
Fixpoint insert_newest (l : License) (rows : list License) : list License :=
  match rows with
  | [] => [l]
  | r :: rest =>
      if created_at r <? created_at l then l :: rows
      else r :: insert_newest l rest
  end.

Definition newest_first (rows : list License) : list License :=
  fold_right insert_newest [] rows.

(** [fetchall] on rows of [licenses]: each row goes through the
    converter as in [fetched], and one row that raises makes the call
    raise. *)
Fixpoint fetchall {B : PyBuiltins} (rows : list License)
  : option (list License) :=
  match rows with
  | [] => Some []
  | row :: rest =>
      match fetched row with
      | None => None
      | Some l =>
          match fetchall rest with
          | None => None
          | Some ls => Some (l :: ls)
          end
      end
  end.

Inductive keys_response : Type :=
| KeysUnauthorized
| KeysServerError
| KeysListing (items : list (License * Z)).

(** [api_keys] (the query of [dashboard] is the same): every license
    with its [activation_count], newest first. *)
Definition api_keys {B : PyBuiltins} (logged_in : bool) (db : DB)
  : keys_response :=
  if negb logged_in then KeysUnauthorized
  else
    match fetchall (newest_first (licenses db)) with
    | None => KeysServerError
    | Some rows =>
        KeysListing (map (fun l => (l, count_activations db (lic_id l))) rows)
    end.

(** The rows of [settings]: [key TEXT PRIMARY KEY, value TEXT]. *)
Definition Settings : Type := list (string * option string).

Definition has_key (k : string) (row : string * option string) : bool :=
  String.eqb (fst row) k.

(** [INSERT OR IGNORE INTO settings(key,value) VALUES (k, v)] *)
Definition insert_or_ignore (s : Settings) (k v : string) : Settings :=
  if existsb (has_key k) s then s else (s ++ [(k, Some v)])%list.

(** What [init_db] does to the [settings] of a file that may already
    hold data ([ensure_db] runs it before every request): the two
    defaults are added where the key is missing. *)
Definition ensure_db (s : Settings) : Settings :=
  insert_or_ignore (insert_or_ignore s "site_name" "Flux Licensing")
                   "accent" "fuchsia".

(** [get_setting]: the value of the row, or [default] when there is no
    row; [None] is a NULL value. *)
Definition get_setting (s : Settings) (key default : string)
  : option string :=
  match find (has_key key) s with
  | Some row => snd row
  | None => Some default
  end.

(** [set_setting]: [INSERT ... ON CONFLICT(key) DO UPDATE SET value =
    excluded.value]. *)
Definition set_setting (s : Settings) (key value : string) : Settings :=
  if existsb (has_key key) s
  then map (fun row => if has_key key row then (fst row, Some value) else row)
           s
  else (s ++ [(key, Some value)])%list.

(** [settings_save]; [None] is a form field the request does not
    carry. *)
Definition settings_save (logged_in : bool) (site_name accent : option string)
    (s : Settings) : admin_response * Settings :=
  if negb logged_in then (Unauthorized, s)
  else
    let site_name := _clean (Some (form_get site_name "Flux Licensing")) in
    let accent := _clean (Some (form_get accent "fuchsia")) in
    (Done, set_setting (set_setting s "site_name" site_name) "accent" accent).

(** The credentials read from the environment at start-up. *)
Record Config : Type := mkConfig {
  ADMIN_USER : string;
  ADMIN_PASSWORD : string
}.

(** [_clean(os.getenv(name, default))] for the two credentials; [None]
    is a variable that is not set. *)
Definition config_of_env (user password : option string) : Config :=
  mkConfig (_clean (Some (form_get user "admin")))
           (_clean (Some (form_get password "fluxadmin"))).

(** The session holds [session["user"]], or nothing. *)
Definition Session : Type := option string.

(** [logged_in]: [session.get("user") == ADMIN_USER] *)
Definition logged_in (cfg : Config) (session : Session) : bool :=
  match session with
  | Some user => String.eqb user (ADMIN_USER cfg)
  | None => false
  end.

(** [login]: whether the credentials were accepted, and the session
    after the request. *)
Definition login (cfg : Config) (username password : option string)
    (session : Session) : bool * Session :=
  let user := _clean (Some (form_get username EmptyString)) in
  let pw := _clean (Some (form_get password EmptyString)) in
  if String.eqb user (ADMIN_USER cfg) && String.eqb pw (ADMIN_PASSWORD cfg)
  then (true, Some user)
  else (false, session).

(** [logout]: [session.clear()] *)
Definition logout (session : Session) : Session := None.

Module Logo.

Definition is_dot (c : ascii) : bool := Ascii.eqb c ".".

Fixpoint has_dot (s : string) : bool :=
  match s with
  | EmptyString => false
  | String c s' => is_dot c || has_dot s'
  end.

(** [s.rsplit(".", 1)[-1]]: what follows the last dot, the whole of
    [s] when it has none. *)
Fixpoint after_last_dot (s : string) : string :=
  match s with
  | EmptyString => EmptyString
  | String c s' =>
      if has_dot s' then after_last_dot s'
      else if is_dot c then s'
      else s
  end.

Definition ALLOWED_LOGO_EXT : list string :=
  ["png"; "jpg"; "jpeg"; "webp"; "ico"].

Definition allowed (ext : string) : bool :=
  existsb (String.eqb ext) ALLOWED_LOGO_EXT.

(** The files of the static folder, by name. *)
Definition Files : Type := string -> option string.

Definition write (fs : Files) (name content : string) : Files :=
  fun n => if String.eqb n name then Some content else fs n.

(** [os.replace(src, dst)] when it succeeds. *)
Definition replace (fs : Files) (src dst : string) : Files :=
  fun n => if String.eqb n dst then fs src
           else if String.eqb n src then None
           else fs n.

Inductive response : Type :=
| Unauthorized
| NoFileSelected
| UnsupportedType
| Uploaded.

(** [upload_logo]; [upload] is the name and the content of the file
    sent as [logo], [replace_ok] whether [os.replace] succeeds (its
    failure is swallowed). *)
Definition upload_logo {B : PyBuiltins} (logged_in : bool)
    (upload : option (string * string)) (replace_ok : bool) (fs : Files)
  : response * Files :=
  if negb logged_in then (Unauthorized, fs)
  else
    match upload with
    | None => (NoFileSelected, fs)
    | Some (fname, content) =>
        if negb (nonempty fname) then (NoFileSelected, fs)
        else
          let ext := lower (after_last_dot fname) in
          if negb (allowed ext) then (UnsupportedType, fs)
          else
            let filename :=
              if String.eqb ext "png" then "logo.png" else "logo." ++ ext in
            let fs1 := write fs filename content in
            if negb (String.eqb filename "logo.png")
            then (Uploaded,
                  if replace_ok then replace fs1 filename "logo.png" else fs1)
            else (Uploaded, fs1)
    end.

End Logo.

(** The draw a character of [alphabet] stands for: its position. *)
Definition char_index (c : ascii) : nat :=
  if is_upper c then nat_of_ascii c - 65 else nat_of_ascii c - 48 + 26.

(** What identifies an activation row and never changes: its
    identifier, its license, its machine and [activated_at]. *)
Definition row_identity (a : Activation) : Z * Z * string * Z :=
  (act_id a, license_id a, machine_id a, activated_at a).

(** ** Requests in sequence *)

(** A request to one of the handlers that use the license tables. *)
Inductive api_request : Type :=
| CreateKey (logged_in : bool) (form : create_form) (now : Z)
            (rnd : nat -> nat)
| RevokeKey (logged_in : bool) (lic_id : Z)
| DeleteKey (logged_in : bool) (lic_id : Z)
| ValidateKey (p : payload) (now : Z).

(** The store after one request, and after a list of them served one
    after the other. *)
Definition serve {B : PyBuiltins} (foreign_keys : bool) (db : DB)
    (r : api_request) : DB :=
  match r with
  | CreateKey li form now rnd => snd (api_create_key li form now rnd db)
  | RevokeKey li id => snd (api_revoke li id db)
  | DeleteKey li id => snd (api_delete foreign_keys li id db)
  | ValidateKey p now => snd (api_validate db p now)
  end.

Definition serve_all {B : PyBuiltins} (foreign_keys : bool) (db : DB)
    (rs : list api_request) : DB :=
  fold_left (serve foreign_keys) rs db.

(** The constraints of the schema on the two tables: the primary keys,
    [lic_key UNIQUE], [UNIQUE(license_id, machine_id)], and identifiers
    no larger than the AUTOINCREMENT counters. *)
Record schema_ok (db : DB) : Prop := mkSchemaOk {
  lic_pk : NoDup (map lic_id (licenses db));
  lic_key_unique : NoDup (map lic_key (licenses db));
  lic_ids_issued : Forall (fun l => lic_id l <= licenses_seq db) (licenses db);
  act_pk : NoDup (map act_id (activations db));
  act_ids_issued :
    Forall (fun a => act_id a <= activations_seq db) (activations db);
  act_pair_unique :
    NoDup (map (fun a => (license_id a, machine_id a)) (activations db));
  act_fk : activations_fk db
}.

(** What the handlers guarantee of every row they write. *)
Definition license_ok (l : License) : Prop :=
  flux_format (lic_key l) = true
  /\ 1 <= max_activations l
  /\ (revoked l = 0 \/ revoked l = 1).

Definition activation_ok (a : Activation) : Prop :=
  nonempty (machine_id a) = true
  /\ strip (machine_id a) = machine_id a.

(** ** More concrete stores and requests *)

Module Examples.

#[local] Existing Instance Sample.builtins.
Import Scenario.

(** A second random source, and the second license it gives. *)
Definition seed2 (i : nat) : nat := (i + 1)%nat.

Definition db_pair : DB :=
  snd (api_create_key true form_two 1500 seed2 db_one_bound).

(** Requests of every kind, some of them without a login. *)
Definition traffic : list api_request :=
  [CreateKey true form_one 1000 seed;
   ValidateKey (request "m1") 2000;
   ValidateKey (request "m2") 3000;
   CreateKey false form_two 3500 seed2;
   CreateKey true form_two 4000 seed2;
   RevokeKey true 1;
   ValidateKey (request "m1") 5000;
   DeleteKey true 1;
   CreateKey true form_one 6000 seed;
   ValidateKey (request " m3 ") 7000;
   DeleteKey false 2].

(** A settings table an admin has renamed the site in. *)
Definition renamed : Settings := set_setting (ensure_db []) "site_name" "Acme".

(** An empty static folder. *)
Definition no_files : Logo.Files := fun _ => None.

End Examples.

(** * Properties *)

(** ** Strings *)

Section StringFacts.

Lemma all_chars_impl (p q : ascii -> bool) (s : string) :
  (forall c, p c = true -> q c = true) ->
  all_chars p s = true -> all_chars q s = true.
Proof.
  intros Hpq. induction s as [|c s IH]; simpl; auto.
  rewrite !andb_true_iff. intros [Hc Hs]. auto.
Qed.

Lemma all_chars_app (p : ascii -> bool) (s t : string) :
  all_chars p (s ++ t) = all_chars p s && all_chars p t.
Proof.
  induction s as [|c s IH]; simpl; auto.
  now rewrite IH, andb_assoc.
Qed.

Lemma rstrip_fixed (s : string) :
  all_chars (fun c => negb (is_space c)) s = true -> rstrip s = s.
Proof.
  induction s as [|c s IH]; simpl; auto.
  rewrite andb_true_iff, negb_true_iff. intros [Hc Hs].
  rewrite (IH Hs), Hc. now destruct s.
Qed.

Lemma lstrip_fixed (s : string) :
  all_chars (fun c => negb (is_space c)) s = true -> lstrip s = s.
Proof.
  destruct s as [|c s]; simpl; auto.
  rewrite andb_true_iff, negb_true_iff. now intros [-> _].
Qed.

Lemma strip_fixed (s : string) :
  all_chars (fun c => negb (is_space c)) s = true -> strip s = s.
Proof.
  intros H. unfold strip. now rewrite (lstrip_fixed _ H), rstrip_fixed.
Qed.

(** [_clean] returns unchanged a text with no blank that does not
    start with a quote. *)
Lemma clean_fixed (s : string) :
  all_chars (fun c => negb (is_space c)) s = true ->
  startswith s dquote = false ->
  startswith s squote = false ->
  _clean (Some s) = s.
Proof.
  intros Hsp Hd Hs. unfold _clean. simpl or_empty.
  rewrite (strip_fixed _ Hsp), Hd, Hs. reflexivity.
Qed.

End StringFacts.

(** ** The key generator *)

Section KeyGenerator.

Lemma choice_alphabet (r : nat) : group_char (choice alphabet r) = true.
Proof.
  unfold choice.
  assert (Hlen : String.length alphabet = 36%nat) by reflexivity.
  rewrite Hlen.
  assert (Hlt : (r mod 36 < 36)%nat) by (apply Nat.mod_upper_bound; lia).
  remember (r mod 36)%nat as i eqn:Hi. clear Hi.
  do 36 (destruct i as [|i]; [reflexivity|]).
  lia.
Qed.

Lemma random_group_length (rnd : nat -> nat) (n start : nat) :
  String.length (random_group rnd start n) = n.
Proof.
  revert start. induction n as [|n IH]; intros start; simpl; auto.
Qed.

Lemma random_group_chars (rnd : nat -> nat) (n start : nat) :
  all_chars group_char (random_group rnd start n) = true.
Proof.
  revert start. induction n as [|n IH]; intros start; simpl; auto.
  now rewrite choice_alphabet, IH.
Qed.

Lemma random_parts_length (rnd : nat -> nat) (groups group_len start : nat) :
  List.length (random_parts rnd start groups group_len) = groups.
Proof.
  revert start. induction groups as [|g IH]; intros start; simpl; auto.
Qed.

Lemma random_parts_groups (rnd : nat -> nat) (groups group_len start : nat) :
  Forall (fun g => String.length g = group_len
                   /\ all_chars group_char g = true)
         (random_parts rnd start groups group_len).
Proof.
  revert start. induction groups as [|g IH]; intros start; simpl.
  - constructor.
  - constructor; auto using random_group_length, random_group_chars.
Qed.

Lemma group_char_not_lower (c : ascii) :
  group_char c = true -> is_lower c = false.
Proof.
  unfold group_char, is_upper, is_digit, is_lower.
  destruct (nat_of_ascii c) as [|n] eqn:E; [reflexivity|].
  rewrite orb_true_iff, !andb_true_iff, !Nat.leb_le.
  intros H. apply andb_false_iff. rewrite !Nat.leb_gt. lia.
Qed.

Lemma group_char_not_space (c : ascii) :
  group_char c = true -> is_space c = false.
Proof.
  unfold group_char, is_upper, is_digit, is_space.
  rewrite orb_true_iff, !andb_true_iff, !Nat.leb_le.
  intros H. apply orb_false_iff. rewrite !andb_false_iff, !Nat.leb_gt. lia.
Qed.

Lemma key_char_not_lower (c : ascii) :
  key_char c = true -> negb (is_lower c) = true.
Proof.
  unfold key_char. rewrite orb_true_iff, negb_true_iff.
  intros [H | H]; [now apply group_char_not_lower|].
  apply Ascii.eqb_eq in H. now subst.
Qed.

Lemma key_char_not_space (c : ascii) :
  key_char c = true -> negb (is_space c) = true.
Proof.
  unfold key_char. rewrite orb_true_iff, negb_true_iff.
  intros [H | H]; [now apply group_char_not_space|].
  apply Ascii.eqb_eq in H. now subst.
Qed.

End KeyGenerator.

Section KeyFormat.

Lemma append_empty_r (s : string) : s ++ EmptyString = s.
Proof. induction s as [|c s IH]; simpl; congruence. Qed.

Lemma take_group_random (rnd : nat -> nat) (n start : nat) (rest : string) :
  take_group n (random_group rnd start n ++ rest) = Some rest.
Proof.
  revert start. induction n as [|n IH]; intros start; simpl; auto.
  now rewrite choice_alphabet.
Qed.

Lemma groups_format_S (g group_len : nat) (s : string) :
  groups_format (S g) group_len s =
  match take_group group_len s with
  | Some EmptyString => Nat.eqb g 0
  | Some (String c rest) =>
      Ascii.eqb c "-" && negb (Nat.eqb g 0) && groups_format g group_len rest
  | None => false
  end.
Proof. reflexivity. Qed.

Lemma random_parts_format (rnd : nat -> nat) (groups group_len start : nat) :
  groups_format groups group_len
    (join "-" (random_parts rnd start groups group_len)) = true.
Proof.
  revert start. induction groups as [|g IH]; intros start; [reflexivity|].
  rewrite groups_format_S.
  destruct g as [|g].
  - cbn [random_parts join].
    rewrite <- (append_empty_r (random_group rnd start group_len)).
    now rewrite take_group_random.
  - specialize (IH (start + group_len)%nat).
    cbn [random_parts] in *.
    set (q := random_group rnd (start + group_len) group_len) in *.
    set (ps := random_parts rnd (start + group_len + group_len) g group_len)
      in *.
    change (join "-" (random_group rnd start group_len :: q :: ps))
      with (random_group rnd start group_len ++ "-" ++ join "-" (q :: ps)).
    rewrite take_group_random.
    change ("-" ++ join "-" (q :: ps)) with (String "-" (join "-" (q :: ps))).
    cbv beta iota. rewrite IH. reflexivity.
Qed.

Lemma flux_format_prefix (rest : string) :
  flux_format (("FLUX" ++ "-") ++ rest) = groups_format 4 5 rest.
Proof. reflexivity. Qed.

Lemma join_chars (ps : list string) :
  Forall (fun g => all_chars key_char g = true) ps ->
  all_chars key_char (join "-" ps) = true.
Proof.
  induction 1 as [|g ps Hg _ IH]; [reflexivity|].
  destruct ps as [|q ps]; [exact Hg|].
  change (join "-" (g :: q :: ps)) with (g ++ "-" ++ join "-" (q :: ps)).
  rewrite !all_chars_app, Hg, IH. reflexivity.
Qed.

Lemma generate_key_default_chars (rnd : nat -> nat) :
  all_chars key_char (generate_key_default rnd) = true.
Proof.
  unfold generate_key_default, generate_key.
  rewrite all_chars_app. apply andb_true_iff. split; [reflexivity|].
  apply join_chars.
  eapply Forall_impl; [|apply random_parts_groups].
  intros g [_ Hg]. revert Hg. apply all_chars_impl.
  intros c Hc. unfold key_char. now rewrite Hc.
Qed.

(** C9.  Every key [generate_key] returns is the prefix, the
    separator, and [groups] groups of [group_len] characters drawn from
    the uppercase letters and the digits, joined by the separator; the
    key of [generate_key()] has the format FLUX-XXXXX-XXXXX-XXXXX-XXXXX
    and holds no lowercase character. *)
Theorem generate_key_shape (rnd : nat -> nat) :
  (forall prefix groups group_len,
      exists parts,
        generate_key rnd prefix groups group_len
          = (prefix ++ "-") ++ join "-" parts
        /\ List.length parts = groups
        /\ Forall (fun g => String.length g = group_len
                            /\ all_chars group_char g = true) parts)
  /\ flux_format (generate_key_default rnd) = true
  /\ String.length (generate_key_default rnd) = 28%nat
  /\ all_chars (fun c => negb (is_lower c)) (generate_key_default rnd) = true.
Proof.
  split; [|split; [|split]].
  - intros prefix groups group_len.
    exists (random_parts rnd 0 groups group_len).
    split; [reflexivity|].
    split; [apply random_parts_length | apply random_parts_groups].
  - unfold generate_key_default, generate_key.
    rewrite flux_format_prefix. apply random_parts_format.
  - reflexivity.
  - generalize (generate_key_default_chars rnd).
    apply all_chars_impl, key_char_not_lower.
Qed.

End KeyFormat.

(** ** The store *)

Section StoreFacts.

Lemma existsb_false_find {A} (f : A -> bool) (l : list A) :
  existsb f l = false <-> find f l = None.
Proof.
  induction l as [|x l IH]; simpl; [tauto|].
  destruct (f x); simpl; [split; discriminate | exact IH].
Qed.

Lemma find_app_fresh {A} (f : A -> bool) (l : list A) (x : A) :
  find f l = None -> find f (l ++ [x]) = if f x then Some x else None.
Proof.
  induction l as [|y l IH]; simpl; [reflexivity|].
  destruct (f y); [discriminate | exact IH].
Qed.

Lemma filter_length_app {A} (f : A -> bool) (l : list A) (x : A) :
  Z.of_nat (List.length (filter f (l ++ [x]))) =
  Z.of_nat (List.length (filter f l)) + (if f x then 1 else 0).
Proof.
  rewrite filter_app, length_app. simpl.
  destruct (f x); simpl; lia.
Qed.

Lemma count_touch (db : DB) (id now lid : Z) :
  count_activations (touch_activation db id now) lid
  = count_activations db lid.
Proof.
  unfold count_activations, touch_activation. simpl. f_equal.
  induction (activations db) as [|a l IH]; simpl; [reflexivity|].
  assert (E : license_id (if act_id a =? id then set_last_seen now a else a)
              = license_id a) by (destruct (act_id a =? id); reflexivity).
  rewrite E. destruct (license_id a =? lid); simpl; congruence.
Qed.

Lemma record_activation_free (db : DB) (lid : Z) (mid : string) (now : Z) :
  get_activation db lid mid = None ->
  record_activation db lid mid now
  = Some (mkDB (licenses db)
               (activations db
                  ++ [mkActivation (activations_seq db + 1) lid mid now now])
               (licenses_seq db) (activations_seq db + 1)).
Proof.
  unfold get_activation, record_activation. intros H.
  apply existsb_false_find in H. now rewrite H.
Qed.

Lemma record_activation_taken (db : DB) (lid : Z) (mid : string) (now : Z)
    (a : Activation) :
  get_activation db lid mid = Some a ->
  record_activation db lid mid now = None.
Proof.
  unfold get_activation, record_activation. intros H.
  destruct (existsb (same_binding lid mid) (activations db)) eqn:E;
    [reflexivity|].
  apply existsb_false_find in E. congruence.
Qed.

Lemma count_record (db db' : DB) (lid : Z) (mid : string) (now l : Z) :
  record_activation db lid mid now = Some db' ->
  licenses db' = licenses db
  /\ count_activations db' l
     = count_activations db l + (if lid =? l then 1 else 0).
Proof.
  unfold record_activation.
  destruct (existsb _ _); [discriminate|].
  intros [= <-]. split; [reflexivity|].
  unfold count_activations. simpl.
  exact (filter_length_app (fun a => license_id a =? l) _ _).
Qed.

Lemma get_activation_touch (db : DB) (lid : Z) (mid : string) (now : Z)
    (a : Activation) :
  get_activation db lid mid = Some a ->
  get_activation (touch_activation db (act_id a) now) lid mid
  = Some (set_last_seen now a).
Proof.
  unfold get_activation, touch_activation. simpl.
  induction (activations db) as [|x l IH]; simpl; [discriminate|].
  destruct (same_binding lid mid x) eqn:Ex.
  - intros [= ->]. rewrite Z.eqb_refl.
    unfold same_binding in *. simpl. now rewrite Ex.
  - intros H.
    assert (E : same_binding lid mid
                  (if act_id x =? act_id a then set_last_seen now x else x)
                = false)
      by (destruct (act_id x =? act_id a); exact Ex).
    rewrite E. exact (IH H).
Qed.

Lemma same_binding_id (lid : Z) (mid : string) (a : Activation) :
  same_binding lid mid a = true -> license_id a = lid.
Proof.
  unfold same_binding. rewrite andb_true_iff, Z.eqb_eq. tauto.
Qed.

Lemma count_nonneg (db : DB) (lid : Z) : 0 <= count_activations db lid.
Proof. unfold count_activations. lia. Qed.

End StoreFacts.

(** ** The validation handler *)

Section Validation.
Context {B : PyBuiltins}.

Lemma strip_empty_clean (k : option string) :
  strip (or_empty k) = EmptyString ->
  _clean (Some (or_empty k)) = EmptyString.
Proof. unfold _clean. simpl or_empty. now intros ->. Qed.

(** The handler, with its local names read as the key and the machine
    of the request. *)
Lemma validate_unfold (others : DB -> DB) (db : DB) (p : payload) (now : Z) :
  api_validate_amid others db p now =
  if negb (nonempty (key_of p)) then (MissingKey, db)
  else if negb (nonempty (machine_of p)) then (MissingMachineId, db)
  else
    match get_by_key db (key_of p) with
    | None => (NotFound, db)
    | Some row =>
        match fetched row with
        | None => (ServerError, db)
        | Some lic =>
            if negb (revoked lic =? 0) then (Revoked, db)
            else if expired lic now then (Expired, db)
            else
              match get_activation db (lic_id lic) (machine_of p) with
              | Some existing =>
                  (success (touch_activation db (act_id existing) now)
                     (key_of p) lic,
                   touch_activation db (act_id existing) now)
              | None =>
                  if max_activations lic <=? count_activations db (lic_id lic)
                  then (ActivationLimitExceeded, db)
                  else
                    match record_activation (others db) (lic_id lic)
                            (machine_of p) now
                    with
                    | Some db' => (success db' (key_of p) lic, db')
                    | None => (ServerError, others db)
                    end
              end
        end
    end.
Proof. reflexivity. Qed.

Lemma addressed_row (db : DB) (p : payload) (lic : License) :
  addressed db p = Some lic ->
  exists row, get_by_key db (key_of p) = Some row /\ fetched row = Some lic.
Proof.
  unfold addressed. destruct (get_by_key db (key_of p)) as [row|];
    [|discriminate].
  intros H. now exists row.
Qed.

(** [fetchone] changes nothing of a row but its [expires_at]. *)
Lemma fetched_fields (row lic : License) :
  fetched row = Some lic ->
  lic_id lic = lic_id row /\ lic_key lic = lic_key row
  /\ max_activations lic = max_activations row
  /\ revoked lic = revoked row /\ notes lic = notes row
  /\ created_at lic = created_at row.
Proof.
  unfold fetched. destruct (expires_at row) as [[t|s]|].
  - intros [= <-]. repeat split.
  - destruct (nonempty s).
    + destruct (convert_timestamp s); [|discriminate].
      intros [= <-]. repeat split.
    + intros [= <-]. repeat split.
  - intros [= <-]. repeat split.
Qed.

(** A row whose [expires_at] is NULL or a datetime is fetched as it is
    stored. *)
Lemma fetched_plain (row : License) :
  (forall s, expires_at row <> Some (TText s)) -> fetched row = Some row.
Proof.
  unfold fetched. destruct (expires_at row) as [[t|s]|]; auto.
  intros H. now destruct (H s).
Qed.

(** Past the three disqualifiers the handler is its activation step. *)
Lemma validate_activation_step (others : DB -> DB) (db : DB) (p : payload)
    (now : Z) (lic : License) :
  nonempty (key_of p) = true ->
  nonempty (machine_of p) = true ->
  addressed db p = Some lic ->
  revoked lic = 0 ->
  expired lic now = false ->
  api_validate_amid others db p now =
  match get_activation db (lic_id lic) (machine_of p) with
  | Some existing =>
      let db' := touch_activation db (act_id existing) now in
      (success db' (key_of p) lic, db')
  | None =>
      if max_activations lic <=? count_activations db (lic_id lic)
      then (ActivationLimitExceeded, db)
      else
        match record_activation (others db) (lic_id lic) (machine_of p) now
        with
        | Some db' => (success db' (key_of p) lic, db')
        | None => (ServerError, others db)
        end
  end.
Proof.
  intros Hk Hm Hl Hr He.
  destruct (addressed_row db p lic Hl) as (row & Hrow & Hf).
  rewrite validate_unfold, Hk, Hm, Hrow, Hf, Hr, He. reflexivity.
Qed.

(** A request served alone does not fail once its row is fetched, and
    never touches the [licenses] table. *)
Lemma validate_alone_total (db : DB) (p : payload) (now : Z) :
  (forall lic, addressed db p = Some lic ->
               fst (api_validate db p now) <> ServerError)
  /\ licenses (snd (api_validate db p now)) = licenses db.
Proof.
  unfold api_validate, addressed. rewrite validate_unfold.
  destruct (nonempty (key_of p)); simpl;
    [|split; [discriminate | reflexivity]].
  destruct (nonempty (machine_of p)); simpl;
    [|split; [discriminate | reflexivity]].
  destruct (get_by_key _ _) as [row|]; [|split; [discriminate | reflexivity]].
  destruct (fetched row) as [lic|]; [|split; [discriminate | reflexivity]].
  destruct (revoked lic =? 0); simpl; [|split; [discriminate | reflexivity]].
  destruct (expired lic now); [split; [discriminate | reflexivity]|].
  destruct (get_activation _ _ _) as [a|] eqn:Ea.
  - split; [discriminate | reflexivity].
  - destruct (_ <=? _); [split; [discriminate | reflexivity]|].
    rewrite (record_activation_free _ _ _ now Ea).
    split; [discriminate | reflexivity].
Qed.

Lemma validate_not_found (db : DB) (p : payload) (now : Z) :
  nonempty (key_of p) = true ->
  nonempty (machine_of p) = true ->
  get_by_key db (key_of p) = None ->
  api_validate db p now = (NotFound, db).
Proof.
  intros Hk Hm Hl. unfold api_validate.
  now rewrite validate_unfold, Hk, Hm, Hl.
Qed.

(** The converter raising inside [fetchone] ends the request. *)
Lemma validate_fetch_error (db : DB) (p : payload) (now : Z) (row : License) :
  nonempty (key_of p) = true ->
  nonempty (machine_of p) = true ->
  get_by_key db (key_of p) = Some row ->
  fetched row = None ->
  api_validate db p now = (ServerError, db).
Proof.
  intros Hk Hm Hl Hf. unfold api_validate.
  now rewrite validate_unfold, Hk, Hm, Hl, Hf.
Qed.

Lemma validate_revoked (db : DB) (p : payload) (now : Z) (lic : License) :
  nonempty (key_of p) = true ->
  nonempty (machine_of p) = true ->
  addressed db p = Some lic ->
  revoked lic <> 0 ->
  api_validate db p now = (Revoked, db).
Proof.
  intros Hk Hm Hl Hr.
  destruct (addressed_row db p lic Hl) as (row & Hrow & Hf).
  unfold api_validate. rewrite validate_unfold, Hk, Hm, Hrow, Hf.
  apply Z.eqb_neq in Hr. now rewrite Hr.
Qed.

Lemma validate_expired (db : DB) (p : payload) (now : Z) (lic : License) :
  nonempty (key_of p) = true ->
  nonempty (machine_of p) = true ->
  addressed db p = Some lic ->
  revoked lic = 0 ->
  expired lic now = true ->
  api_validate db p now = (Expired, db).
Proof.
  intros Hk Hm Hl Hr He.
  destruct (addressed_row db p lic Hl) as (row & Hrow & Hf).
  unfold api_validate. now rewrite validate_unfold, Hk, Hm, Hrow, Hf, Hr, He.
Qed.

(** C6.  A request whose key is empty once trimmed is answered
    MissingKey; a request with a key and an empty machine identifier
    is answered MissingMachineId; in both cases the store is returned
    as it was. *)
Theorem validate_missing_input (db : DB) (p : payload) (now : Z) :
  (strip (or_empty (payload_key p)) = EmptyString ->
   api_validate db p now = (MissingKey, db))
  /\ (key_of p = EmptyString ->
      api_validate db p now = (MissingKey, db))
  /\ (key_of p <> EmptyString ->
      or_empty (payload_machine_id p) = EmptyString ->
      api_validate db p now = (MissingMachineId, db))
  /\ (key_of p <> EmptyString ->
      machine_of p = EmptyString ->
      api_validate db p now = (MissingMachineId, db)).
Proof.
  assert (Hkey : key_of p = EmptyString ->
                 api_validate db p now = (MissingKey, db)).
  { intros E. unfold api_validate. now rewrite validate_unfold, E. }
  assert (Hmid : key_of p <> EmptyString -> machine_of p = EmptyString ->
                 api_validate db p now = (MissingMachineId, db)).
  { intros Hk E. unfold api_validate. rewrite validate_unfold, E.
    destruct (key_of p) eqn:E'; [congruence | reflexivity]. }
  repeat split; auto.
  - intros H. apply Hkey. unfold key_of.
    rewrite (strip_empty_clean _ H). now apply upper_plain.
  - intros Hk Hm. apply Hmid; auto. unfold machine_of. now rewrite Hm.
Qed.


(** C5 (what the code does).  A text in the expiry column never
    reaches the test of lines 275-279, because it is converted while
    the row is fetched.  A text the converter rejects ends the request
    in a server error, with nothing changed; an empty text is read as
    no expiry, so the license is validated as one that never expires
    (the first machine of a license that is not revoked and has room
    is answered Success).  In neither case is the verdict Expired. *)
Theorem stored_text_expiry_not_expired (db : DB) (p : payload) (now : Z)
    (row : License) (s : string) :
  nonempty (key_of p) = true ->
  nonempty (machine_of p) = true ->
  get_by_key db (key_of p) = Some row ->
  expires_at row = Some (TText s) ->
  convert_timestamp s = None ->
  fst (api_validate db p now) <> Expired
  /\ (nonempty s = true -> api_validate db p now = (ServerError, db))
  /\ (nonempty s = false ->
      exists lic,
        addressed db p = Some lic /\ expires_at lic = None
        /\ lic_id lic = lic_id row
        /\ (revoked row = 0 ->
            get_activation db (lic_id row) (machine_of p) = None ->
            count_activations db (lic_id row) < max_activations row ->
            fst (api_validate db p now)
            = Success (key_of p) None
                (max_activations row - count_activations db (lic_id row) - 1)
                (notes row))).
Proof.
  intros Hk Hm Hrow He Hc.
  destruct (nonempty s) eqn:Hs.
  - assert (Hf : fetched row = None)
      by (unfold fetched; now rewrite He, Hs, Hc).
    rewrite (validate_fetch_error db p now row Hk Hm Hrow Hf).
    split; [discriminate|]. split; [reflexivity | discriminate].
  - set (lic := mkLicense (lic_id row) (lic_key row) (created_at row) None
                  (max_activations row) (revoked row) (notes row)).
    assert (Hf : fetched row = Some lic)
      by (unfold fetched; now rewrite He, Hs).
    assert (Hl : addressed db p = Some lic)
      by (unfold addressed; now rewrite Hrow).
    assert (Hx : expired lic now = false) by reflexivity.
    split; [|split; [discriminate|]].
    + destruct (Z.eq_dec (revoked lic) 0) as [Hr|Hr].
      * unfold api_validate.
        rewrite (validate_activation_step _ db p now lic Hk Hm Hl Hr Hx).
        destruct (get_activation _ _ _); [discriminate|].
        destruct (_ <=? _); [discriminate|].
        destruct (record_activation _ _ _ _); discriminate.
      * rewrite (validate_revoked db p now lic Hk Hm Hl Hr). discriminate.
    + intros _. exists lic. split; [exact Hl|]. split; [reflexivity|].
      split; [reflexivity|]. intros Hr Ha Hroom.
      unfold api_validate.
      rewrite (validate_activation_step _ db p now lic Hk Hm Hl Hr Hx).
      simpl lic_id. rewrite Ha. simpl max_activations.
      destruct (_ <=? _) eqn:E; [apply Z.leb_le in E; lia|].
      rewrite (record_activation_free _ _ _ now Ha). simpl fst.
      unfold success. simpl. f_equal.
      unfold count_activations at 1. simpl.
      rewrite (filter_length_app (fun a => license_id a =? lic_id row)).
      simpl. rewrite Z.eqb_refl.
      fold (count_activations db (lic_id row)). lia.
Qed.

Lemma pk_injective (ls : list License) (x y : License) :
  NoDup (map lic_id ls) -> In x ls -> In y ls -> lic_id x = lic_id y -> x = y.
Proof.
  induction ls as [|l ls IH]; simpl; [tauto|].
  intros Hnd Hx Hy E. inversion Hnd as [|? ? Hnot Hnd']; subst.
  destruct Hx as [-> | Hx], Hy as [-> | Hy]; auto.
  - exfalso. apply Hnot. rewrite E. now apply in_map.
  - exfalso. apply Hnot. rewrite <- E. now apply in_map.
Qed.

Lemma addressed_in (db : DB) (p : payload) (lic : License) :
  addressed db p = Some lic ->
  exists row, In row (licenses db) /\ fetched row = Some lic.
Proof.
  intros H. destruct (addressed_row db p lic H) as (row & Hrow & Hf).
  exists row. split; [|exact Hf].
  unfold get_by_key in Hrow. now apply find_some in Hrow.
Qed.

(** What one request does to the activation counts: nothing, or one
    more row for the addressed license, which was below its limit and
    had no row for the machine. *)
Lemma validate_step_counts (db : DB) (p : payload) (now lid : Z) :
  count_activations (snd (api_validate db p now)) lid
  = count_activations db lid
  \/ (count_activations (snd (api_validate db p now)) lid
      = count_activations db lid + 1
      /\ exists lic,
           addressed db p = Some lic /\ lic_id lic = lid
           /\ get_activation db lid (machine_of p) = None
           /\ count_activations db lid < max_activations lic).
Proof.
  unfold api_validate. rewrite validate_unfold.
  destruct (nonempty (key_of p)) eqn:Hk; simpl; [|now left].
  destruct (nonempty (machine_of p)) eqn:Hm; simpl; [|now left].
  destruct (get_by_key db (key_of p)) as [row|] eqn:Hl; [|now left].
  destruct (fetched row) as [lic|] eqn:Hf; [|now left].
  destruct (revoked lic =? 0); simpl; [|now left].
  destruct (expired lic now); [now left|].
  destruct (get_activation _ _ _) as [a|] eqn:Ea.
  - left. apply count_touch.
  - destruct (_ <=? _) eqn:Hc; [now left|].
    rewrite (record_activation_free _ _ _ now Ea). simpl.
    destruct (count_record db _ _ _ now lid
                (record_activation_free _ _ _ now Ea)) as [_ Hcount].
    rewrite Hcount. destruct (lic_id lic =? lid) eqn:E.
    + right. apply Z.eqb_eq in E. subst lid. split; [reflexivity|].
      exists lic. apply Z.leb_gt in Hc.
      unfold addressed. rewrite Hl. auto.
    + left. lia.
Qed.

Lemma validate_preserves_limit (db : DB) (p : payload) (now : Z) :
  licenses_pk db -> within_limit db ->
  within_limit (snd (api_validate db p now)).
Proof.
  intros Hpk Hinv l Hin.
  destruct (validate_alone_total db p now) as [_ Hlics].
  rewrite Hlics in Hin.
  destruct (validate_step_counts db p now (lic_id l))
    as [-> | [-> (lic & Ha & Hid & _ & Hlt)]].
  - now apply Hinv.
  - destruct (addressed_in db p lic Ha) as (row & Hrow & Hf).
    destruct (fetched_fields row lic Hf) as (Hi & _ & Hm & _).
    assert (row = l)
      by (eapply pk_injective; eauto; congruence).
    subst row. lia.
Qed.

(** C1.  From a store in which no license is over its limit, no
    sequence of validation requests leads to one in which a license
    is: a request adds a row for a license only when the machine has
    none and the license is below its limit, and a request that would
    bind a new machine to a license at its limit is answered
    ActivationLimitExceeded and changes nothing. *)
Theorem activation_limit_invariant (db : DB) :
  licenses_pk db ->
  within_limit db ->
  (forall calls, within_limit (run_validates db calls))
  /\ (forall p now lid,
        count_activations (snd (api_validate db p now)) lid
        = count_activations db lid
        \/ (count_activations (snd (api_validate db p now)) lid
            = count_activations db lid + 1
            /\ exists lic,
                 addressed db p = Some lic /\ lic_id lic = lid
                 /\ get_activation db lid (machine_of p) = None
                 /\ count_activations db lid < max_activations lic))
  /\ (forall p now lic,
        nonempty (key_of p) = true ->
        nonempty (machine_of p) = true ->
        addressed db p = Some lic ->
        revoked lic = 0 ->
        expired lic now = false ->
        get_activation db (lic_id lic) (machine_of p) = None ->
        max_activations lic <= count_activations db (lic_id lic) ->
        api_validate db p now = (ActivationLimitExceeded, db)).
Proof.
  intros Hpk Hinv. split; [|split].
  - intros calls. revert db Hpk Hinv.
    induction calls as [|[p now] calls IH]; intros db Hpk Hinv; simpl; auto.
    apply IH.
    + unfold licenses_pk.
      now rewrite (proj2 (validate_alone_total db p now)).
    + now apply validate_preserves_limit.
  - intros p now lid. apply validate_step_counts.
  - intros p now lic Hk Hm Hl Hr He Ha Hc.
    unfold api_validate.
    rewrite (validate_activation_step _ db p now lic Hk Hm Hl Hr He), Ha.
    apply Z.leb_le in Hc. now rewrite Hc.
Qed.

(** One validation by a machine that holds a row. *)
Lemma validate_bound (db : DB) (p : payload) (now : Z) (lic : License)
    (a : Activation) :
  nonempty (key_of p) = true ->
  nonempty (machine_of p) = true ->
  addressed db p = Some lic ->
  revoked lic = 0 ->
  expired lic now = false ->
  get_activation db (lic_id lic) (machine_of p) = Some a ->
  api_validate db p now
  = (Success (key_of p) (expires_at lic)
       (Z.max 0 (max_activations lic - count_activations db (lic_id lic)))
       (notes lic),
     touch_activation db (act_id a) now).
Proof.
  intros Hk Hm Hl Hr He Ha. unfold api_validate.
  rewrite (validate_activation_step _ db p now lic Hk Hm Hl Hr He), Ha.
  cbv zeta. unfold success. now rewrite count_touch.
Qed.



(** C10.  Two machine identifiers that differ, were it only in the
    case of a letter, are two machines: validated one after the other
    on a license with room for both, each gets a row of its own and
    each consumes a slot. *)
Theorem machine_ids_compared_exactly (db : DB) (p1 p2 : payload)
    (now1 now2 : Z) (lic : License) :
  nonempty (key_of p1) = true ->
  key_of p2 = key_of p1 ->
  nonempty (machine_of p1) = true ->
  nonempty (machine_of p2) = true ->
  machine_of p1 <> machine_of p2 ->
  addressed db p1 = Some lic ->
  revoked lic = 0 ->
  expired lic now1 = false ->
  expired lic now2 = false ->
  get_activation db (lic_id lic) (machine_of p1) = None ->
  get_activation db (lic_id lic) (machine_of p2) = None ->
  count_activations db (lic_id lic) + 2 <= max_activations lic ->
  let r1 := api_validate db p1 now1 in
  let r2 := api_validate (snd r1) p2 now2 in
  let free := max_activations lic - count_activations db (lic_id lic) in
  fst r1 = Success (key_of p1) (expires_at lic) (free - 1) (notes lic)
  /\ fst r2 = Success (key_of p1) (expires_at lic) (free - 2) (notes lic)
  /\ activations (snd r2)
     = (activations db
        ++ [mkActivation (activations_seq db + 1) (lic_id lic)
              (machine_of p1) now1 now1;
            mkActivation (activations_seq db + 2) (lic_id lic)
              (machine_of p2) now2 now2])%list
  /\ count_activations (snd r2) (lic_id lic)
     = count_activations db (lic_id lic) + 2.
Proof.
  intros Hk1 Hk Hm1 Hm2 Hneq Hl Hr He1 He2 Ha1 Ha2 Hroom r1 r2 free.
  assert (Hk2 : nonempty (key_of p2) = true) by now rewrite Hk.
  assert (Hl2 : forall d, licenses d = licenses db ->
                          addressed d p2 = Some lic).
  { intros d Hd. unfold addressed, get_by_key in *. now rewrite Hd, Hk. }
  assert (E1 : r1 = (Success (key_of p1) (expires_at lic) (free - 1)
                       (notes lic),
                     mkDB (licenses db)
                       (activations db
                          ++ [mkActivation (activations_seq db + 1)
                                (lic_id lic) (machine_of p1) now1 now1])
                       (licenses_seq db) (activations_seq db + 1))).
  { subst r1. unfold api_validate.
    rewrite (validate_activation_step _ db p1 now1 lic Hk1 Hm1 Hl Hr He1), Ha1.
    destruct (_ <=? _) eqn:Hc; [apply Z.leb_le in Hc; lia|].
    rewrite (record_activation_free _ _ _ now1 Ha1).
    unfold success. f_equal. f_equal.
    unfold count_activations at 1. simpl.
    rewrite (filter_length_app (fun a => license_id a =? lic_id lic)).
    simpl. rewrite Z.eqb_refl. fold (count_activations db (lic_id lic)).
    subst free. lia. }
  set (db1 := snd r1) in *.
  assert (Hdb1 : db1 = mkDB (licenses db)
                         (activations db
                            ++ [mkActivation (activations_seq db + 1)
                                  (lic_id lic) (machine_of p1) now1 now1])
                         (licenses_seq db) (activations_seq db + 1))
    by (subst db1; now rewrite E1).
  assert (Hc1 : count_activations db1 (lic_id lic)
                = count_activations db (lic_id lic) + 1).
  { rewrite Hdb1. unfold count_activations. simpl.
    rewrite (filter_length_app (fun a => license_id a =? lic_id lic)).
    simpl. now rewrite Z.eqb_refl. }
  assert (Ha2' : get_activation db1 (lic_id lic) (machine_of p2) = None).
  { rewrite Hdb1. unfold get_activation in *. simpl.
    rewrite (find_app_fresh _ _ _ Ha2). unfold same_binding. simpl.
    rewrite Z.eqb_refl. simpl.
    destruct (String.eqb_spec (machine_of p1) (machine_of p2)); congruence. }
  assert (E2 : r2 = (Success (key_of p1) (expires_at lic) (free - 2)
                       (notes lic),
                     mkDB (licenses db1)
                       (activations db1
                          ++ [mkActivation (activations_seq db1 + 1)
                                (lic_id lic) (machine_of p2) now2 now2])
                       (licenses_seq db1) (activations_seq db1 + 1))).
  { subst r2. fold db1. unfold api_validate.
    rewrite (validate_activation_step _ db1 p2 now2 lic Hk2 Hm2
               (Hl2 db1 ltac:(now rewrite Hdb1)) Hr He2), Ha2'.
    destruct (_ <=? _) eqn:Hc; [apply Z.leb_le in Hc; lia|].
    rewrite (record_activation_free _ _ _ now2 Ha2').
    unfold success. rewrite Hk. f_equal. f_equal.
    unfold count_activations at 1. simpl.
    rewrite (filter_length_app (fun a => license_id a =? lic_id lic)).
    simpl. rewrite Z.eqb_refl. fold (count_activations db1 (lic_id lic)).
    subst free. lia. }
  split; [now rewrite E1|]. split; [now rewrite E2|].
  rewrite E2. simpl. split.
  - rewrite Hdb1. simpl. rewrite <- app_assoc. simpl.
    replace (activations_seq db + 1 + 1) with (activations_seq db + 2) by lia.
    reflexivity.
  - unfold count_activations at 1. simpl.
    rewrite (filter_length_app (fun a => license_id a =? lic_id lic)).
    simpl. rewrite Z.eqb_refl. fold (count_activations db1 (lic_id lic)).
    lia.
Qed.

(** C3 (as the code has it).  When the lookup finds no row for the
    pair, the license has room, and another connection has committed a
    row for the same pair before the INSERT runs, the INSERT fails on
    the uniqueness constraint and nothing catches the failure: the
    request ends in a server error, and the row is left as the other
    connection wrote it, its [last_seen] not updated. *)
Theorem duplicate_insert_is_surfaced (others : DB -> DB) (db : DB)
    (p : payload) (now : Z) (lic : License) (a : Activation) :
  nonempty (key_of p) = true ->
  nonempty (machine_of p) = true ->
  addressed db p = Some lic ->
  revoked lic = 0 ->
  expired lic now = false ->
  get_activation db (lic_id lic) (machine_of p) = None ->
  count_activations db (lic_id lic) < max_activations lic ->
  get_activation (others db) (lic_id lic) (machine_of p) = Some a ->
  api_validate_amid others db p now = (ServerError, others db)
  /\ get_activation (snd (api_validate_amid others db p now))
       (lic_id lic) (machine_of p) = Some a.
Proof.
  intros Hk Hm Hl Hr He Ha Hc Hrace.
  rewrite (validate_activation_step others db p now lic Hk Hm Hl Hr He), Ha.
  destruct (_ <=? _) eqn:E; [apply Z.leb_le in E; lia|].
  rewrite (record_activation_taken _ _ _ now a Hrace). now split.
Qed.

End Validation.

(** ** The creation handler *)

Section Creation.
Context {B : PyBuiltins}.

Lemma generate_key_default_clean (rnd : nat -> nat) :
  upper (_clean (Some (generate_key_default rnd))) = generate_key_default rnd.
Proof.
  pose proof (generate_key_default_chars rnd) as Hc.
  rewrite clean_fixed.
  - apply upper_plain. exact Hc.
  - revert Hc. apply all_chars_impl, key_char_not_space.
  - reflexivity.
  - reflexivity.
Qed.

(** What a successful creation wrote. *)
Lemma create_inserts (logged_in : bool) (form : create_form) (now : Z)
    (rnd : nat -> nat) (db db' : DB) (k : string) :
  api_create_key logged_in form now rnd db = (Created k, db') ->
  exists lic,
    db' = mkDB (licenses db ++ [lic]) (activations db)
               (licenses_seq db + 1) (activations_seq db)
    /\ k = generate_key_default rnd
    /\ get_by_key db k = None
    /\ lic_id lic = licenses_seq db + 1
    /\ lic_key lic = k
    /\ created_at lic = now
    /\ revoked lic = 0
    /\ max_activations lic
       = match py_int (_clean (Some (form_get (form_max_activations form) "1")))
         with
         | Some n => Z.max 1 n
         | None => 1
         end
    /\ expires_at lic
       = match parse_days (form_get (form_days form) EmptyString) with
         | Some d => Some (TDatetime (now + d * us_per_day))
         | None => None
         end.
Proof.
  unfold api_create_key.
  destruct logged_in; simpl; [|discriminate].
  set (maxact := match py_int _ with Some n => Z.max 1 n | None => 1 end).
  set (days := parse_days _).
  assert (Hins : forall exp,
    match insert_license db (generate_key_default rnd) now exp maxact
            (_clean (Some (form_get (form_notes form) EmptyString)))
    with
    | Some d => (Created (generate_key_default rnd), d)
    | None => (AdminServerError, db)
    end = (Created k, db') ->
    exists lic,
      db' = mkDB (licenses db ++ [lic]) (activations db)
                 (licenses_seq db + 1) (activations_seq db)
      /\ k = generate_key_default rnd
      /\ get_by_key db k = None
      /\ lic_id lic = licenses_seq db + 1
      /\ lic_key lic = k
      /\ created_at lic = now
      /\ revoked lic = 0
      /\ max_activations lic = maxact
      /\ expires_at lic = option_map TDatetime exp).
  { intros exp. unfold insert_license.
    destruct (existsb _ _) eqn:Ex; [discriminate|].
    destruct (sqlite_int_max <? maxact); [discriminate|].
    intros [= <- <-]. eexists. split; [reflexivity|].
    apply existsb_false_find in Ex. simpl. repeat split; auto. }
  destruct days as [d|].
  - unfold add_days.
    destruct (999999999 <? d); simpl; [discriminate|].
    destruct (datetime_max <? _); simpl; [discriminate|].
    intros H. exact (Hins _ H).
  - simpl. intros H. exact (Hins _ H).
Qed.

Lemma count_fresh_license (db : DB) :
  activations_fk db ->
  filter (fun a => license_id a =? licenses_seq db + 1) (activations db) = [].
Proof.
  unfold activations_fk.
  induction 1 as [|a l Ha _ IH]; simpl; [reflexivity|].
  destruct (license_id a =? licenses_seq db + 1) eqn:E; [|exact IH].
  apply Z.eqb_eq in E. lia.
Qed.

Lemma find_filter_nil {A} (f g : A -> bool) (l : list A) :
  (forall x, g x = true -> f x = true) ->
  filter f l = [] -> find g l = None.
Proof.
  intros Hgf. induction l as [|x l IH]; simpl; [reflexivity|].
  destruct (f x) eqn:Fx; [discriminate|].
  destruct (g x) eqn:Gx; [|exact IH].
  rewrite (Hgf x Gx) in Fx. discriminate.
Qed.

(** C7.  [parse_days] turns a day count that [int] rejects, or that is
    zero or negative, into [None]; the license a creation writes then
    has no expiry.  Its [max_activations] is 1 when the input is
    rejected by [int] or is zero or negative, and at least 1 in every
    case.  A license created with no expiry is never answered Expired,
    at any time, and its first validation succeeds. *)
Theorem create_coerces_inputs (logged_in : bool) (form : create_form)
    (now : Z) (rnd : nat -> nat) (db db' : DB) (k : string) :
  api_create_key logged_in form now rnd db = (Created k, db') ->
  let days_str := form_get (form_days form) EmptyString in
  let max_str := _clean (Some (form_get (form_max_activations form) "1")) in
  exists lic,
    licenses db' = (licenses db ++ [lic])%list
    /\ lic_key lic = k
    /\ 1 <= max_activations lic
    /\ (py_int max_str = None -> max_activations lic = 1)
    /\ (forall n, py_int max_str = Some n -> n <= 0 ->
          max_activations lic = 1)
    /\ (py_int days_str = None ->
          parse_days days_str = None /\ expires_at lic = None)
    /\ (forall d, py_int days_str = Some d -> d <= 0 ->
          parse_days days_str = None /\ expires_at lic = None)
    /\ (expires_at lic = None ->
        forall p now',
          key_of p = k -> nonempty (machine_of p) = true ->
          fst (api_validate db' p now') <> Expired
          /\ (activations_fk db ->
              fst (api_validate db' p now')
              = Success k None (max_activations lic - 1) (notes lic))).
Proof.
  intros Hc days_str max_str.
  destruct (create_inserts _ _ _ _ _ _ _ Hc)
    as (lic & Hdb & Hk & Hfresh & Hid & Hkey & _ & Hrev & Hmax & Hexp).
  fold max_str in Hmax. fold days_str in Hexp.
  exists lic. subst db'. simpl.
  split; [reflexivity|]. split; [exact Hkey|].
  split; [rewrite Hmax; destruct (py_int max_str); lia|].
  split; [intros E; now rewrite Hmax, E|].
  split; [intros n E Hn; rewrite Hmax, E; lia|].
  assert (Hnone : parse_days days_str = None -> expires_at lic = None)
    by (intros E; now rewrite Hexp, E).
  split.
  { intros E. assert (parse_days days_str = None)
      by (unfold parse_days; now rewrite E). auto. }
  split.
  { intros d E Hd. assert (parse_days days_str = None).
    { unfold parse_days. rewrite E.
      destruct (d <=? 0) eqn:F; [reflexivity | apply Z.leb_gt in F; lia]. }
    auto. }
  intros Hex p now' Hp Hm.
  set (db' := mkDB (licenses db ++ [lic]) (activations db)
                   (licenses_seq db + 1) (activations_seq db)).
  assert (Hnk : nonempty (key_of p) = true).
  { rewrite Hp, Hk. reflexivity. }
  assert (Hl : addressed db' p = Some lic).
  { unfold addressed, get_by_key. rewrite Hp. simpl.
    unfold get_by_key in Hfresh. rewrite (find_app_fresh _ _ _ Hfresh).
    rewrite Hkey, String.eqb_refl. apply fetched_plain.
    intros s. rewrite Hex. discriminate. }
  assert (He : expired lic now' = false)
    by (unfold expired; now rewrite Hex).
  unfold api_validate.
  rewrite (validate_activation_step _ db' p now' lic Hnk Hm Hl Hrev He).
  split.
  - destruct (get_activation _ _ _); [discriminate|].
    destruct (_ <=? _); [discriminate|].
    destruct (record_activation _ _ _ _); discriminate.
  - intros Hfk.
    assert (Hnil := count_fresh_license db Hfk).
    assert (Ha : get_activation db' (lic_id lic) (machine_of p) = None).
    { unfold get_activation. simpl. rewrite Hid.
      apply (find_filter_nil
               (fun a => license_id a =? licenses_seq db + 1)); auto.
      intros x Hx. unfold same_binding in Hx.
      now apply andb_true_iff in Hx. }
    assert (Hcount : count_activations db' (lic_id lic) = 0).
    { unfold count_activations. simpl. now rewrite Hid, Hnil. }
    rewrite Ha, Hcount.
    assert (1 <= max_activations lic)
      by (rewrite Hmax; destruct (py_int max_str); lia).
    destruct (_ <=? _) eqn:F; [apply Z.leb_le in F; lia|].
    rewrite (record_activation_free _ _ _ now' Ha). simpl.
    unfold success. rewrite Hp, Hex. f_equal.
    unfold count_activations. simpl.
    rewrite (filter_length_app (fun a => license_id a =? lic_id lic)).
    simpl. rewrite Z.eqb_refl, Hid, Hnil. simpl. lia.
Qed.

(** C8.  The key a creation returns is the key of [generate_key()];
    cleaning and upper-casing leave it as it is, so the lookup of the
    validation handler, given that key in any spelling that normalises
    to it, resolves to the row the creation wrote. *)
Theorem created_key_resolves (logged_in : bool) (form : create_form)
    (now : Z) (rnd : nat -> nat) (db db' : DB) (k : string) :
  api_create_key logged_in form now rnd db = (Created k, db') ->
  k = generate_key_default rnd
  /\ upper (_clean (Some k)) = k
  /\ exists lic,
       licenses db' = (licenses db ++ [lic])%list
       /\ lic_key lic = k
       /\ get_by_key db k = None
       /\ get_by_key db' (upper (_clean (Some k))) = Some lic
       /\ forall p, key_of p = k -> addressed db' p = Some lic.
Proof.
  intros Hc.
  destruct (create_inserts _ _ _ _ _ _ _ Hc)
    as (lic & Hdb & Hk & Hfresh & _ & Hkey & _ & _ & _ & Hexp).
  assert (Hnorm : upper (_clean (Some k)) = k)
    by (rewrite Hk; apply generate_key_default_clean).
  assert (Hget : get_by_key db' k = Some lic).
  { subst db'. unfold get_by_key in *. simpl.
    rewrite (find_app_fresh _ _ _ Hfresh).
    now rewrite Hkey, String.eqb_refl. }
  split; [exact Hk|]. split; [exact Hnorm|].
  exists lic. split; [now subst db'|]. split; [exact Hkey|].
  split; [exact Hfresh|]. split; [now rewrite Hnorm|].
  intros p Hp. unfold addressed. rewrite Hp, Hget. apply fetched_plain.
  intros s. rewrite Hexp. destruct (parse_days _); discriminate.
Qed.

End Creation.

(** ** The properties on concrete stores *)

Section Scenarios.
Import Scenario.
#[local] Existing Instance Sample.builtins.

Ltac by_computation := vm_compute; try reflexivity; discriminate.

Lemma seed_key : generate_key_default seed = key0.
Proof. reflexivity. Qed.

(** Scenario A: one activation allowed, m1 bound, m2 refused. *)
Lemma activation_limit_invariant_witness :
  licenses_pk db_one_bound
  /\ within_limit db_one_bound
  /\ within_limit
       (run_validates db_one_bound
          [(request "m2", 3000); (request "m1", 4000); (request "m3", 5000)])
  /\ api_validate db_one_bound (request "m2") 3000
     = (ActivationLimitExceeded, db_one_bound).
Proof.
  assert (Hpk : licenses_pk db_one_bound).
  { vm_compute. constructor; [intros [] | constructor]. }
  assert (Hinv : within_limit db_one_bound).
  { intros lic Hin. vm_compute in Hin. destruct Hin as [<- | []].
    by_computation. }
  destruct (activation_limit_invariant db_one_bound Hpk Hinv)
    as (Hseq & _ & Hlim).
  split; [exact Hpk|]. split; [exact Hinv|]. split; [apply Hseq|].
  apply (Hlim (request "m2") 3000 lic_one); by_computation.
Defined.



(** A text that is no timestamp, and an empty text, in the expiry
    column. *)
Lemma stored_text_expiry_not_expired_witness :
  convert_timestamp "next week" = None
  /\ api_validate db_bad_expiry (request "m1") 3000
     = (ServerError, db_bad_expiry)
  /\ fst (api_validate db_blank_expiry (request "m1") 3000)
     = Success key0 None 0 EmptyString.
Proof.
  split; [reflexivity|]. split.
  - apply (stored_text_expiry_not_expired (B := Sample.builtins)
             db_bad_expiry (request "m1") 3000
             (mkLicense 1 key0 1000 (Some (TText "next week")) 1 0 EmptyString)
             "next week" eq_refl eq_refl eq_refl eq_refl eq_refl).
    reflexivity.
  - destruct (stored_text_expiry_not_expired (B := Sample.builtins)
                db_blank_expiry (request "m1") 3000
                (mkLicense 1 key0 1000 (Some (TText EmptyString)) 1 0
                   EmptyString)
                EmptyString eq_refl eq_refl eq_refl eq_refl eq_refl)
      as (_ & _ & Hopen).
    destruct (Hopen eq_refl) as (lic & _ & _ & _ & Hok).
    exact (Hok eq_refl eq_refl ltac:(by_computation)).
Defined.

Lemma validate_missing_input_witness :
  api_validate db_one (mkPayload (Some "   ") (Some "m1")) 3000
  = (MissingKey, db_one)
  /\ api_validate db_one (mkPayload (Some key0) None) 3000
     = (MissingMachineId, db_one).
Proof.
  split.
  - apply (proj1 (validate_missing_input db_one
                    (mkPayload (Some "   ") (Some "m1")) 3000)).
    reflexivity.
  - apply (proj1 (proj2 (proj2 (validate_missing_input db_one
                                  (mkPayload (Some key0) None) 3000)))).
    + by_computation.
    + reflexivity.
Defined.

(** Scenario C: expiry in 0 days, validated ten thousand days later. *)
Lemma create_coerces_inputs_witness :
  api_create_key true form_one 1000 seed init_db = (Created key0, db_one)
  /\ licenses db_one = [lic_one]
  /\ fst (api_validate db_one (request "m1") (10000 * us_per_day))
     = Success key0 None 0 EmptyString.
Proof.
  assert (Hc : api_create_key true form_one 1000 seed init_db
               = (Created key0, db_one)) by reflexivity.
  split; [exact Hc|]. split; [reflexivity|].
  destruct (create_coerces_inputs true form_one 1000 seed init_db db_one key0
              Hc) as (lic & Hl & _ & _ & _ & _ & _ & Hdays & Hval).
  assert (E : lic = lic_one)
    by (vm_compute in Hl; injection Hl as Hl; now rewrite <- Hl).
  destruct (Hdays 0 eq_refl ltac:(discriminate)) as [_ Hnone].
  destruct (Hval Hnone (request "m1") (10000 * us_per_day) eq_refl eq_refl)
    as [_ Hok].
  rewrite (Hok ltac:(constructor)), E. reflexivity.
Defined.

(** The key typed in lower case, quoted and padded, resolves to the
    created row. *)
Lemma created_key_resolves_witness :
  api_create_key true form_two 1000 seed init_db = (Created key0, db_two)
  /\ addressed db_two
       (mkPayload (Some "  'flux-abcde-fghij-klmno-pqrst' ") (Some "m1"))
     = Some lic_two.
Proof.
  assert (Hc : api_create_key true form_two 1000 seed init_db
               = (Created key0, db_two)) by reflexivity.
  split; [exact Hc|].
  destruct (created_key_resolves true form_two 1000 seed init_db db_two key0
              Hc) as (_ & _ & lic & Hl & _ & _ & _ & Hres).
  assert (E : lic = lic_two)
    by (vm_compute in Hl; injection Hl as Hl; now rewrite <- Hl).
  rewrite <- E. apply Hres. reflexivity.
Defined.

(** M1 and m1 on a license with two activations. *)
Lemma machine_ids_compared_exactly_witness :
  upper "m1" = upper "M1"
  /\ activations
       (snd (api_validate (snd (api_validate db_two (request "M1") 2000))
                          (request "m1") 3000))
     = [mkActivation 1 1 "M1" 2000 2000; mkActivation 2 1 "m1" 3000 3000]
  /\ fst (api_validate (snd (api_validate db_two (request "M1") 2000))
                       (request "m1") 3000)
     = Success key0 (Some (TDatetime 2592000001000)) 0 "team".
Proof.
  split; [reflexivity|].
  destruct (machine_ids_compared_exactly (B := Sample.builtins)
              db_two (request "M1") (request "m1")
              2000 3000 lic_two
              eq_refl eq_refl eq_refl eq_refl ltac:(discriminate)
              eq_refl eq_refl eq_refl eq_refl eq_refl eq_refl
              ltac:(by_computation))
    as (_ & Hv & Hrows & _).
  split; [exact Hrows | exact Hv].
Defined.

(** The same request served by two connections at once: the second
    INSERT fails. *)
Lemma duplicate_insert_is_surfaced_witness :
  get_activation db_two 1 "m1" = None
  /\ get_activation (racing db_two) 1 "m1"
     = Some (mkActivation 1 1 "m1" 2000 2000)
  /\ api_validate_amid racing db_two (request "m1") 2001
     = (ServerError, racing db_two).
Proof.
  split; [reflexivity|]. split; [reflexivity|].
  apply (duplicate_insert_is_surfaced (B := Sample.builtins)
           racing db_two (request "m1") 2001
           lic_two (mkActivation 1 1 "m1" 2000 2000)
           eq_refl eq_refl eq_refl eq_refl eq_refl eq_refl
           ltac:(by_computation) eq_refl).
Defined.

(** C3 (as the specification has it) fails: no request whose INSERT
    hits the uniqueness constraint is answered Success. *)
Lemma duplicate_insert_not_recovered :
  ~ (forall (others : DB -> DB) (db : DB) (p : payload) (now : Z)
            (lic : License) (a : Activation),
       nonempty (key_of p) = true ->
       nonempty (machine_of p) = true ->
       addressed db p = Some lic ->
       revoked lic = 0 ->
       expired lic now = false ->
       get_activation db (lic_id lic) (machine_of p) = None ->
       count_activations db (lic_id lic) < max_activations lic ->
       get_activation (others db) (lic_id lic) (machine_of p) = Some a ->
       is_success (fst (api_validate_amid others db p now)) = true).
Proof.
  intros H.
  specialize (H racing db_two (request "m1") 2001 lic_two
                (mkActivation 1 1 "m1" 2000 2000)
                eq_refl eq_refl eq_refl eq_refl eq_refl eq_refl
                ltac:(by_computation) eq_refl).
  vm_compute in H. discriminate H.
Qed.

(** Two requests for two new machines of a license with one slot,
    interleaved: both INSERTs pass, and the license holds two rows. *)
Remark interleaved_requests_overshoot :
  within_limit db_one
  /\ count_activations
       (snd (api_validate_amid racing db_one (request "m2") 2001)) 1 = 2
  /\ ~ within_limit (snd (api_validate_amid racing db_one (request "m2") 2001)).
Proof.
  split; [|split].
  - intros lic Hin. vm_compute in Hin. destruct Hin as [<- | []].
    by_computation.
  - reflexivity.
  - intros H. specialize (H lic_one (or_introl eq_refl)).
    vm_compute in H. apply H. reflexivity.
Qed.

End Scenarios.

(** * Further properties of the handlers *)

(** ** [_clean] *)

Section Cleaning.

Lemma rstrip_involutive (s : string) : rstrip (rstrip s) = rstrip s.
Proof.
  induction s as [|c s IH]; [reflexivity|].
  simpl. destruct (rstrip s) as [|d r] eqn:E.
  - destruct (is_space c) eqn:Hc; simpl; [reflexivity | now rewrite Hc].
  - change (rstrip (String c (String d r)))
      with (match rstrip (String d r) with
            | EmptyString =>
                if is_space c then EmptyString else String c EmptyString
            | x => String c x
            end).
    now rewrite IH.
Qed.

Lemma lstrip_head (s : string) :
  match lstrip s with
  | EmptyString => True
  | String c _ => is_space c = false
  end.
Proof.
  induction s as [|c s IH]; simpl; [exact I|].
  destruct (is_space c) eqn:Hc; [exact IH | exact Hc].
Qed.

Lemma rstrip_keeps_head (c : ascii) (s : string) :
  is_space c = false -> exists r, rstrip (String c s) = String c r.
Proof.
  intros Hc. simpl. destruct (rstrip s) as [|d r].
  - rewrite Hc. now exists EmptyString.
  - now exists (String d r).
Qed.

Lemma strip_head (s : string) :
  match strip s with
  | EmptyString => True
  | String c _ => is_space c = false
  end.
Proof.
  unfold strip. pose proof (lstrip_head s) as H.
  destruct (lstrip s) as [|c t]; [exact I|].
  destruct (rstrip_keeps_head c t H) as [r ->]. exact H.
Qed.

Lemma strip_involutive (s : string) : strip (strip s) = strip s.
Proof.
  pose proof (strip_head s) as H.
  unfold strip at 1.
  destruct (strip s) as [|c t] eqn:E; [reflexivity|].
  simpl lstrip. rewrite H. rewrite <- E.
  unfold strip. apply rstrip_involutive.
Qed.

Lemma rstrip_fixed_last (s : string) (c : ascii) :
  rstrip s = s -> is_space c = true -> endswith s c = false.
Proof.
  intros Hs Hc. induction s as [|a s IH]; [reflexivity|].
  simpl in Hs. destruct (rstrip s) as [|d r] eqn:E.
  - destruct (is_space a) eqn:Ha; [discriminate|].
    injection Hs as <-. simpl.
    destruct (Ascii.eqb_spec a c); [congruence | reflexivity].
  - injection Hs as Hs. rewrite <- Hs in *. simpl. apply IH. reflexivity.
Qed.

Lemma length_lstrip (s : string) :
  (String.length (lstrip s) <= String.length s)%nat.
Proof.
  induction s as [|c s IH]; simpl; [lia|].
  destruct (is_space c); simpl; lia.
Qed.

Lemma length_rstrip (s : string) :
  (String.length (rstrip s) <= String.length s)%nat.
Proof.
  induction s as [|c s IH]; simpl; [lia|].
  destruct (rstrip s); [destruct (is_space c)|]; simpl in *; lia.
Qed.

Lemma length_strip (s : string) :
  (String.length (strip s) <= String.length s)%nat.
Proof.
  unfold strip. pose proof (length_rstrip (lstrip s)).
  pose proof (length_lstrip s). lia.
Qed.

Lemma length_drop_last (s : string) :
  (String.length (drop_last s) <= String.length s)%nat.
Proof.
  induction s as [|c s IH]; simpl; [lia|].
  destruct s; simpl in *; lia.
Qed.

Lemma clean_is_strip (s : option string) :
  exists t, _clean s = strip t
            /\ (String.length t <= String.length (or_empty s))%nat.
Proof.
  unfold _clean. destruct (_ || _).
  - exists (slice_1_m1 (strip (or_empty s))). split; [reflexivity|].
    pose proof (length_strip (or_empty s)).
    destruct (strip (or_empty s)) as [|c t]; simpl in *; [lia|].
    pose proof (length_drop_last t). lia.
  - exists (or_empty s). split; [reflexivity | lia].
Qed.

(** X1.  Whatever it is given, [_clean] returns a text with no blank
    at either end: stripping it again changes nothing, it neither
    starts nor ends with a whitespace character, and it is no longer
    than the input. *)
Theorem clean_trimmed (s : option string) :
  strip (_clean s) = _clean s
  /\ (forall c, is_space c = true ->
        startswith (_clean s) c = false /\ endswith (_clean s) c = false)
  /\ (String.length (_clean s) <= String.length (or_empty s))%nat.
Proof.
  destruct (clean_is_strip s) as (t & -> & Hlen).
  split; [apply strip_involutive|]. split.
  - intros c Hc. split.
    + pose proof (strip_head t) as H.
      destruct (strip t) as [|a r]; [reflexivity|]. simpl.
      destruct (Ascii.eqb_spec a c); [congruence | reflexivity].
    + apply rstrip_fixed_last; [|exact Hc].
      unfold strip. apply rstrip_involutive.
  - pose proof (length_strip t). lia.
Qed.

Lemma lstrip_pad (pad s : string) :
  all_chars is_space pad = true -> lstrip (pad ++ s) = lstrip s.
Proof.
  induction pad as [|c pad IH]; simpl; [reflexivity|].
  rewrite andb_true_iff. intros [-> H]. auto.
Qed.

Lemma rstrip_blank (pad : string) :
  all_chars is_space pad = true -> rstrip pad = EmptyString.
Proof.
  induction pad as [|c pad IH]; simpl; [reflexivity|].
  rewrite andb_true_iff. intros [-> H]. now rewrite IH.
Qed.

Lemma rstrip_pad (s pad : string) :
  all_chars is_space pad = true -> rstrip (s ++ pad) = rstrip s.
Proof.
  intros H. induction s as [|c s IH]; simpl.
  - now apply rstrip_blank.
  - now rewrite IH.
Qed.

Lemma rstrip_closed (s : string) (q : ascii) :
  is_space q = false ->
  rstrip (s ++ String q EmptyString) = s ++ String q EmptyString.
Proof.
  intros Hq. induction s as [|c s IH]; simpl.
  - now rewrite Hq.
  - rewrite IH. now destruct s.
Qed.

Lemma endswith_closed (s : string) (q : ascii) :
  endswith (s ++ String q EmptyString) q = true.
Proof.
  induction s as [|c s IH]; simpl.
  - apply Ascii.eqb_refl.
  - destruct s; exact IH.
Qed.

Lemma endswith_closed_other (s : string) (q c : ascii) :
  endswith (s ++ String q EmptyString) c = Ascii.eqb q c.
Proof.
  induction s as [|a s IH]; simpl; [reflexivity|].
  destruct s; exact IH.
Qed.

Lemma drop_last_closed (s : string) (q : ascii) :
  drop_last (s ++ String q EmptyString) = s.
Proof.
  induction s as [|c s IH]; simpl; [reflexivity|].
  rewrite IH. now destruct s.
Qed.

Lemma strip_padded_quoted (pad1 pad2 t : string) (q : ascii) :
  is_space q = false ->
  all_chars is_space pad1 = true ->
  all_chars is_space pad2 = true ->
  strip (pad1 ++ String q (t ++ String q EmptyString) ++ pad2)
  = String q (t ++ String q EmptyString).
Proof.
  intros Hq H1 H2. unfold strip. rewrite (lstrip_pad _ _ H1).
  simpl lstrip. rewrite Hq.
  change (String q ((t ++ String q EmptyString) ++ pad2))
    with (String q (t ++ String q EmptyString) ++ pad2).
  rewrite (rstrip_pad _ _ H2).
  exact (rstrip_closed (String q t) q Hq).
Qed.

(** X2.  A text wrapped in one pair of matching quotes, single or
    double, with any blanks around the quotes, is cleaned to the text
    between the quotes, stripped; only that one pair is removed. *)
Theorem clean_unquotes (q : ascii) (pad1 pad2 t : string) :
  q = dquote \/ q = squote ->
  all_chars is_space pad1 = true ->
  all_chars is_space pad2 = true ->
  _clean (Some (pad1 ++ String q (t ++ String q EmptyString) ++ pad2))
  = strip t.
Proof.
  intros Hq H1 H2.
  assert (Hsp : is_space q = false) by (destruct Hq; subst; reflexivity).
  unfold _clean, or_empty.
  rewrite (strip_padded_quoted _ _ _ _ Hsp H1 H2). cbv zeta.
  assert (E : forall c, endswith (String q (t ++ String q EmptyString)) c
                        = Ascii.eqb q c)
    by (intros c; exact (endswith_closed_other (String q t) q c)).
  rewrite !E. simpl startswith.
  unfold slice_1_m1. rewrite drop_last_closed.
  destruct Hq; subst; reflexivity.
Qed.

End Cleaning.

(** ** [generate_key] as an encoding of the draws *)

Section KeyEncoding.

Lemma length_append (s t : string) :
  String.length (s ++ t) = (String.length s + String.length t)%nat.
Proof. induction s as [|c s IH]; simpl; congruence. Qed.

Lemma append_cancel_l (p s t : string) : p ++ s = p ++ t -> s = t.
Proof.
  induction p as [|c p IH]; simpl; [trivial|].
  intros [= H]. auto.
Qed.

Lemma append_split (s1 s2 t1 t2 : string) :
  String.length s1 = String.length s2 ->
  s1 ++ t1 = s2 ++ t2 -> s1 = s2 /\ t1 = t2.
Proof.
  revert s2. induction s1 as [|c s1 IH]; intros [|d s2]; simpl;
    try discriminate.
  - auto.
  - intros [= Hlen] [= -> H]. destruct (IH _ Hlen H) as [-> ->]. auto.
Qed.

Lemma char_index_choice (r : nat) :
  char_index (choice alphabet r) = (r mod 36)%nat.
Proof.
  unfold choice.
  assert (Hlen : String.length alphabet = 36%nat) by reflexivity.
  rewrite Hlen.
  assert (Hlt : (r mod 36 < 36)%nat) by (apply Nat.mod_upper_bound; lia).
  remember (r mod 36)%nat as i eqn:Hi. clear Hi.
  do 36 (destruct i as [|i]; [reflexivity|]).
  lia.
Qed.

Lemma random_group_ext (r1 r2 : nat -> nat) (n start : nat) :
  random_group r1 start n = random_group r2 start n <->
  (forall i, (start <= i < start + n)%nat ->
             (r1 i mod 36 = r2 i mod 36)%nat).
Proof.
  revert start. induction n as [|n IH]; intros start; cbn [random_group].
  - split; [intros _ i Hi; lia | reflexivity].
  - split.
    + intros [= Hc Hrest] i Hi.
      destruct (Nat.eq_dec i start) as [->|Hne].
      * now rewrite <- !char_index_choice, Hc.
      * apply (proj1 (IH (S start)) Hrest). lia.
    + intros H. f_equal.
      * assert (E : (r1 start mod 36 = r2 start mod 36)%nat)
          by (apply H; lia).
        unfold choice. change (String.length alphabet) with 36%nat.
        now rewrite E.
      * apply IH. intros i Hi. apply H. lia.
Qed.

Lemma join_random_parts_length (rnd : nat -> nat) (g n start : nat) :
  String.length (join "-" (random_parts rnd start g n))
  = (g * n + pred g)%nat.
Proof.
  revert start. induction g as [|g IH]; intros start; [reflexivity|].
  cbn [random_parts]. specialize (IH (start + n)%nat).
  destruct g as [|g].
  - cbn [random_parts join]. rewrite random_group_length. lia.
  - cbn [random_parts] in *.
    set (q := random_group rnd (start + n) n) in *.
    set (ps := random_parts rnd (start + n + n) g n) in *.
    change (join "-" (random_group rnd start n :: q :: ps))
      with (random_group rnd start n ++ "-" ++ join "-" (q :: ps)).
    rewrite !length_append, random_group_length, IH. simpl. lia.
Qed.

Lemma join_random_parts_ext (r1 r2 : nat -> nat) (g n start : nat) :
  join "-" (random_parts r1 start g n) = join "-" (random_parts r2 start g n)
  <-> (forall i, (start <= i < start + g * n)%nat ->
                 (r1 i mod 36 = r2 i mod 36)%nat).
Proof.
  revert start. induction g as [|g IH]; intros start.
  - simpl. split; [intros _ i Hi; lia | reflexivity].
  - cbn [random_parts]. specialize (IH (start + n)%nat).
    destruct g as [|g].
    + cbn [random_parts join]. rewrite random_group_ext.
      split; intros H i Hi; apply H; lia.
    + cbn [random_parts] in *.
      set (q1 := random_group r1 (start + n) n) in *.
      set (ps1 := random_parts r1 (start + n + n) g n) in *.
      set (q2 := random_group r2 (start + n) n) in *.
      set (ps2 := random_parts r2 (start + n + n) g n) in *.
      change (join "-" (random_group r1 start n :: q1 :: ps1))
        with (random_group r1 start n ++ "-" ++ join "-" (q1 :: ps1)).
      change (join "-" (random_group r2 start n :: q2 :: ps2))
        with (random_group r2 start n ++ "-" ++ join "-" (q2 :: ps2)).
      split.
      * intros H i Hi.
        apply append_split in H;
          [|now rewrite !random_group_length].
        destruct H as [Hg Hrest].
        apply append_cancel_l in Hrest.
        destruct (Nat.lt_ge_cases i (start + n)) as [Hlt|Hge].
        -- apply (proj1 (random_group_ext r1 r2 n start) Hg). lia.
        -- apply (proj1 IH Hrest). lia.
      * intros H.
        assert (Hg : random_group r1 start n = random_group r2 start n)
          by (apply random_group_ext; intros i Hi; apply H; lia).
        assert (Hrest : join "-" (q1 :: ps1) = join "-" (q2 :: ps2))
          by (apply IH; intros i Hi; apply H; lia).
        now rewrite Hg, Hrest.
Qed.

(** X3.  The length of a generated key is that of the prefix, one
    separator, the [groups * group_len] drawn characters and the
    [groups - 1] separators between the groups; with no group the key
    is the prefix and a dangling separator. *)
Theorem generate_key_length (rnd : nat -> nat) (prefix : string)
    (groups group_len : nat) :
  String.length (generate_key rnd prefix groups group_len)
  = (String.length prefix + 1 + (groups * group_len + pred groups))%nat
  /\ generate_key rnd prefix 0 group_len = prefix ++ "-".
Proof.
  unfold generate_key. split.
  - rewrite !length_append, join_random_parts_length. simpl. lia.
  - simpl. now rewrite append_empty_r.
Qed.

(** X4.  A generated key encodes its draws and nothing else: two
    random sources give the same key exactly when their first
    [groups * group_len] draws pick the same characters of the
    alphabet, so distinct choices never collide in one key. *)
Theorem generate_key_injective (r1 r2 : nat -> nat) (prefix : string)
    (groups group_len : nat) :
  generate_key r1 prefix groups group_len
  = generate_key r2 prefix groups group_len
  <-> (forall i, (i < groups * group_len)%nat ->
                 (r1 i mod 36 = r2 i mod 36)%nat).
Proof.
  unfold generate_key. split.
  - intros H i Hi. apply append_cancel_l in H.
    apply (proj1 (join_random_parts_ext r1 r2 groups group_len 0) H). lia.
  - intros H. f_equal.
    apply join_random_parts_ext. intros i Hi. apply H. lia.
Qed.

End KeyEncoding.

(** ** What one request changes *)

Section Effects.
Context {B : PyBuiltins}.

Lemma machine_of_trimmed (p : payload) : strip (machine_of p) = machine_of p.
Proof.
  unfold machine_of.
  destruct (clean_is_strip (Some (or_empty (payload_machine_id p))))
    as (t & -> & _).
  apply strip_involutive.
Qed.

(** A request whose row is not found, or cannot be fetched, changes
    nothing. *)
Lemma validate_no_row (db : DB) (p : payload) (now : Z) :
  nonempty (key_of p) = true ->
  nonempty (machine_of p) = true ->
  addressed db p = None ->
  is_success (fst (api_validate db p now)) = false
  /\ snd (api_validate db p now) = db.
Proof.
  intros Hk Hm Hl. unfold addressed in Hl.
  destruct (get_by_key db (key_of p)) as [row|] eqn:Hrow.
  - rewrite (validate_fetch_error db p now row Hk Hm Hrow Hl). now split.
  - rewrite (validate_not_found db p now Hk Hm Hrow). now split.
Qed.

(** The three ways a validation request can end. *)
Lemma validate_cases (db : DB) (p : payload) (now : Z) :
  (is_success (fst (api_validate db p now)) = false
   /\ snd (api_validate db p now) = db)
  \/ (exists lic a,
        addressed db p = Some lic
        /\ get_activation db (lic_id lic) (machine_of p) = Some a
        /\ api_validate db p now
           = (Success (key_of p) (expires_at lic)
                (Z.max 0 (max_activations lic
                          - count_activations db (lic_id lic)))
                (notes lic),
              touch_activation db (act_id a) now))
  \/ (exists lic,
        addressed db p = Some lic
        /\ nonempty (machine_of p) = true
        /\ get_activation db (lic_id lic) (machine_of p) = None
        /\ count_activations db (lic_id lic) < max_activations lic
        /\ api_validate db p now
           = (Success (key_of p) (expires_at lic)
                (max_activations lic - count_activations db (lic_id lic) - 1)
                (notes lic),
              mkDB (licenses db)
                   (activations db
                    ++ [mkActivation (activations_seq db + 1) (lic_id lic)
                          (machine_of p) now now])
                   (licenses_seq db) (activations_seq db + 1))).
Proof.
  destruct (nonempty (key_of p)) eqn:Hk.
  2:{ left. unfold api_validate. rewrite validate_unfold, Hk. now split. }
  destruct (nonempty (machine_of p)) eqn:Hm.
  2:{ left. unfold api_validate. rewrite validate_unfold, Hk, Hm.
      now split. }
  destruct (addressed db p) as [lic|] eqn:Hl.
  2:{ left. now apply validate_no_row. }
  destruct (Z.eq_dec (revoked lic) 0) as [Hr|Hr].
  2:{ left. rewrite (validate_revoked db p now lic Hk Hm Hl Hr). now split. }
  destruct (expired lic now) eqn:He.
  { left. rewrite (validate_expired db p now lic Hk Hm Hl Hr He). now split. }
  destruct (get_activation db (lic_id lic) (machine_of p)) as [a|] eqn:Ha.
  { right. left. exists lic, a. split; [reflexivity|]. split; [exact Ha|].
    now apply validate_bound. }
  unfold api_validate.
  rewrite (validate_activation_step _ db p now lic Hk Hm Hl Hr He), Ha.
  destruct (_ <=? _) eqn:Hc; [left; now split|].
  right. right. exists lic. apply Z.leb_gt in Hc.
  split; [reflexivity|]. split; [reflexivity|]. split; [exact Ha|].
  split; [exact Hc|].
  rewrite (record_activation_free _ _ _ now Ha).
  unfold success. f_equal. f_equal.
  unfold count_activations at 1. simpl.
  rewrite (filter_length_app (fun a => license_id a =? lic_id lic)).
  simpl. rewrite Z.eqb_refl. fold (count_activations db (lic_id lic)). lia.
Qed.

Lemma touch_keeps (f : Activation -> Z) (db : DB) (id now : Z) :
  (forall a, f (set_last_seen now a) = f a) ->
  map f (activations (touch_activation db id now)) = map f (activations db).
Proof.
  intros Hf. unfold touch_activation. simpl. rewrite map_map.
  apply map_ext. intros a. destruct (act_id a =? id); auto.
Qed.

Lemma touch_keeps_identity (db : DB) (id now : Z) :
  map row_identity (activations (touch_activation db id now))
  = map row_identity (activations db).
Proof.
  unfold touch_activation. simpl. rewrite map_map.
  apply map_ext. intros a. now destruct (act_id a =? id).
Qed.

(** X5.  A validation request that is not answered Success changes
    nothing.  One that is answered Success leaves the [licenses] table
    as it was, keeps the identifier, license, machine and
    [activated_at] of every activation row, adds at most one row, and
    leaves the machine bound with [last_seen] equal to [now]. *)
Theorem validate_frame (db : DB) (p : payload) (now : Z) :
  let r := api_validate db p now in
  (is_success (fst r) = false -> snd r = db)
  /\ licenses (snd r) = licenses db
  /\ (exists added,
        (List.length added <= 1)%nat
        /\ map row_identity (activations (snd r))
           = (map row_identity (activations db) ++ map row_identity added)%list
        /\ Forall (fun a => activated_at a = now /\ last_seen a = now
                            /\ machine_id a = machine_of p) added)
  /\ (is_success (fst r) = true ->
      exists lic a,
        addressed db p = Some lic
        /\ get_activation (snd r) (lic_id lic) (machine_of p) = Some a
        /\ last_seen a = now).
Proof.
  cbv zeta.
  destruct (validate_cases db p now)
    as [[Hv Hdb] | [(lic & a & Hl & Ha & E) | (lic & Hl & Hm & Ha & Hc & E)]].
  - rewrite Hdb, Hv. split; [trivial|]. split; [reflexivity|]. split.
    + exists []. simpl. rewrite app_nil_r. repeat split; auto.
    + discriminate.
  - rewrite E. simpl. split; [discriminate|]. split; [reflexivity|]. split.
    + exists []. simpl. rewrite app_nil_r.
      split; [lia|]. split; [|constructor].
      exact (touch_keeps_identity db (act_id a) now).
    + intros _. exists lic, (set_last_seen now a).
      split; [exact Hl|]. split; [|reflexivity].
      now apply get_activation_touch.
  - rewrite E. simpl. split; [discriminate|]. split; [reflexivity|]. split.
    + eexists [_]. split; [simpl; lia|]. split.
      * now rewrite map_app.
      * repeat constructor.
    + intros _. eexists lic, _. split; [exact Hl|].
      unfold get_activation in *. simpl.
      rewrite (find_app_fresh _ _ _ Ha). unfold same_binding. simpl.
      rewrite Z.eqb_refl, String.eqb_refl. simpl. split; reflexivity.
Qed.

(** X6.  A Success verdict reports the addressed license: its
    normalised key, its expiry and its notes, and as
    [remaining_activations] the free slots counted after the request,
    never negative; the requesting machine holds one of the rows
    counted. *)
Theorem success_reports_license (db db' : DB) (p : payload) (now : Z)
    (k : string) (e : option timestamp_col) (r : Z) (n : string) :
  api_validate db p now = (Success k e r n, db') ->
  exists lic,
    addressed db p = Some lic
    /\ k = key_of p /\ e = expires_at lic /\ n = notes lic
    /\ revoked lic = 0
    /\ r = Z.max 0 (max_activations lic - count_activations db' (lic_id lic))
    /\ 1 <= count_activations db' (lic_id lic)
    /\ 0 <= r <= Z.max 0 (max_activations lic - 1).
Proof.
  intros E.
  assert (Hcount : forall lic a,
            get_activation db' (lic_id lic) (machine_of p) = Some a ->
            1 <= count_activations db' (lic_id lic)).
  { intros lic a Ha. unfold get_activation, count_activations in *.
    apply find_some in Ha. destruct Ha as [Hin Hb].
    apply same_binding_id in Hb.
    assert (Hf : In a (filter (fun x => license_id x =? lic_id lic)
                         (activations db')))
      by (apply filter_In; split; [exact Hin | now apply Z.eqb_eq]).
    destruct (filter _ _); [destruct Hf | simpl; lia]. }
  assert (Hrev : forall lic, addressed db p = Some lic -> revoked lic = 0).
  { intros lic Hl. destruct (Z.eq_dec (revoked lic) 0) as [|Hr]; [trivial|].
    destruct (nonempty (key_of p)) eqn:Hk.
    2:{ unfold api_validate, api_validate_amid in E. fold (key_of p) in E.
        rewrite Hk in E. discriminate. }
    destruct (nonempty (machine_of p)) eqn:Hm.
    2:{ unfold api_validate, api_validate_amid in E.
        fold (key_of p) (machine_of p) in E. rewrite Hk, Hm in E.
        discriminate. }
    rewrite (validate_revoked db p now lic Hk Hm Hl Hr) in E. discriminate. }
  destruct (validate_cases db p now)
    as [[Hv _] | [(lic & a & Hl & Ha & E') | (lic & Hl & Hm & Ha & Hc & E')]].
  - rewrite E in Hv. discriminate.
  - rewrite E in E'. injection E' as -> -> -> -> ->.
    exists lic. rewrite count_touch.
    pose proof (Hcount lic _ (get_activation_touch db _ _ now a Ha)) as H1.
    rewrite count_touch in H1.
    repeat split; auto; lia.
  - rewrite E in E'. injection E' as -> -> -> -> ->.
    exists lic.
    assert (Hc' : count_activations
                    (mkDB (licenses db)
                       (activations db
                        ++ [mkActivation (activations_seq db + 1) (lic_id lic)
                              (machine_of p) now now])
                       (licenses_seq db) (activations_seq db + 1))
                    (lic_id lic)
                  = count_activations db (lic_id lic) + 1).
    { unfold count_activations. simpl.
      rewrite (filter_length_app (fun a => license_id a =? lic_id lic)).
      simpl. now rewrite Z.eqb_refl. }
    rewrite Hc'. pose proof (count_nonneg db (lic_id lic)).
    repeat split; auto; lia.
Qed.

End Effects.

(** ** Invariants of the store under every handler *)

Section Invariants.
Context {B : PyBuiltins}.
Variable foreign_keys : bool.

Lemma NoDup_map_filter {A K} (f : A -> K) (keep : A -> bool) (l : list A) :
  NoDup (map f l) -> NoDup (map f (filter keep l)).
Proof.
  induction l as [|x l IH]; simpl; [trivial|].
  intros H. inversion H as [|? ? Hnot Hnd]; subst.
  destruct (keep x); simpl; [|auto].
  constructor; [|auto].
  intros Hin. apply Hnot. apply in_map_iff in Hin.
  destruct Hin as (y & Hy & Hin). apply filter_In in Hin.
  apply in_map_iff. exists y. tauto.
Qed.

Lemma NoDup_map_snoc {A K} (f : A -> K) (l : list A) (x : A) :
  NoDup (map f l) -> ~ In (f x) (map f l) -> NoDup (map f (l ++ [x])).
Proof.
  intros Hnd Hnot. rewrite map_app. simpl.
  apply NoDup_app; [exact Hnd | repeat constructor; intros [] |].
  intros k Hk [<- | []]. contradiction.
Qed.

Lemma issued_fresh {A} (id : A -> Z) (seq : Z) (l : list A) :
  Forall (fun x => id x <= seq) l -> ~ In (seq + 1) (map id l).
Proof.
  intros H Hin. apply in_map_iff in Hin. destruct Hin as (x & Hx & Hin).
  rewrite Forall_forall in H. specialize (H x Hin). lia.
Qed.

Lemma issued_next {A} (id : A -> Z) (seq : Z) (l : list A) :
  Forall (fun x => id x <= seq) l -> Forall (fun x => id x <= seq + 1) l.
Proof. apply Forall_impl. intros x Hx. lia. Qed.

Lemma key_absent (db : DB) (k : string) :
  get_by_key db k = None -> ~ In k (map lic_key (licenses db)).
Proof.
  unfold get_by_key. intros H Hin.
  apply in_map_iff in Hin. destruct Hin as (l & Hl & Hin).
  apply (find_none _ _ H) in Hin. simpl in Hin.
  rewrite Hl, String.eqb_refl in Hin. discriminate.
Qed.

Lemma pair_absent (db : DB) (lid : Z) (mid : string) :
  get_activation db lid mid = None ->
  ~ In (lid, mid)
       (map (fun a => (license_id a, machine_id a)) (activations db)).
Proof.
  unfold get_activation. intros H Hin.
  apply in_map_iff in Hin. destruct Hin as (a & Ha & Hin).
  apply (find_none _ _ H) in Hin. unfold same_binding in Hin.
  injection Ha as H1 H2.
  rewrite H1, H2, Z.eqb_refl, String.eqb_refl in Hin. discriminate.
Qed.

Lemma create_frame (li : bool) (form : create_form) (now : Z)
    (rnd : nat -> nat) (db : DB) :
  (exists k, api_create_key li form now rnd db
             = (Created k, snd (api_create_key li form now rnd db)))
  \/ ((forall k, fst (api_create_key li form now rnd db) <> Created k)
      /\ snd (api_create_key li form now rnd db) = db).
Proof.
  unfold api_create_key. destruct li; simpl; [|right; split; [intros k; simpl; discriminate | reflexivity]].
  match goal with
  | |- context [match ?x with Some _ => _ | None => (AdminServerError, db) end]
    => destruct x as [e|]
  end; [|right; split; [intros k; simpl; discriminate | reflexivity]].
  match goal with
  | |- context [match ?x with Some _ => _ | None => (AdminServerError, db) end]
    => destruct x as [d|]
  end; [|right; split; [intros k; simpl; discriminate | reflexivity]].
  left. eexists. reflexivity.
Qed.

Lemma generate_key_default_format (rnd : nat -> nat) :
  flux_format (generate_key_default rnd) = true.
Proof.
  unfold generate_key_default, generate_key.
  rewrite flux_format_prefix. apply random_parts_format.
Qed.

Lemma revoke_field {K} (f : License -> K) (db : DB) (id : Z) :
  (forall l, f (mkLicense (lic_id l) (lic_key l) (created_at l) (expires_at l)
                  (max_activations l) 1 (notes l)) = f l) ->
  map f (licenses (revoke db id)) = map f (licenses db).
Proof.
  intros Hf. unfold revoke. simpl. rewrite map_map.
  apply map_ext. intros l. destruct (lic_id l =? id); auto.
Qed.

Lemma touch_field {K} (f : Activation -> K) (db : DB) (id now : Z) :
  (forall a, f (set_last_seen now a) = f a) ->
  map f (activations (touch_activation db id now)) = map f (activations db).
Proof.
  intros Hf. unfold touch_activation. simpl. rewrite map_map.
  apply map_ext. intros a. destruct (act_id a =? id); auto.
Qed.

Lemma Forall_map_eq {A K} (f : A -> K) (P : K -> Prop) (l l' : list A) :
  map f l' = map f l -> Forall (fun x => P (f x)) l ->
  Forall (fun x => P (f x)) l'.
Proof.
  intros E H. apply Forall_map. rewrite E. now apply Forall_map.
Qed.

Lemma schema_create (li : bool) (form : create_form) (now : Z)
    (rnd : nat -> nat) (db : DB) :
  schema_ok db -> schema_ok (snd (api_create_key li form now rnd db)).
Proof.
  intros [Hpk Hkey Hids Hapk Haids Hpair Hfk].
  destruct (create_frame li form now rnd db) as [[k E] | [_ ->]];
    [|now constructor].
  destruct (create_inserts _ _ _ _ _ _ _ E)
    as (lic & -> & _ & Hfresh & Hid & Hk & _).
  constructor; simpl; auto.
  - apply NoDup_map_snoc; [exact Hpk|]. rewrite Hid.
    now apply issued_fresh.
  - apply NoDup_map_snoc; [exact Hkey|]. rewrite Hk. now apply key_absent.
  - apply Forall_app. split; [now apply issued_next|].
    constructor; [lia | constructor].
  - unfold activations_fk in *. simpl. revert Hfk. apply Forall_impl.
    intros a Ha. lia.
Qed.

Lemma schema_revoke (db : DB) (id : Z) :
  schema_ok db -> schema_ok (revoke db id).
Proof.
  intros [Hpk Hkey Hids Hapk Haids Hpair Hfk].
  constructor; auto.
  - now rewrite (revoke_field lic_id).
  - now rewrite (revoke_field lic_key).
  - apply (Forall_map_eq lic_id (fun i => i <= licenses_seq db)
             (licenses db)); [now apply revoke_field | exact Hids].
Qed.

Lemma schema_delete (db : DB) (id : Z) :
  schema_ok db -> schema_ok (delete_license foreign_keys db id).
Proof.
  intros [Hpk Hkey Hids Hapk Haids Hpair Hfk].
  assert (Hsub : forall (P : Activation -> Prop),
            Forall P (activations db) ->
            Forall P (activations (delete_license foreign_keys db id))).
  { intros P H. simpl. destruct foreign_keys; [|exact H].
    apply Forall_forall. intros a Ha. apply filter_In in Ha.
    rewrite Forall_forall in H. now apply H. }
  assert (Hnd : forall K (f : Activation -> K),
            NoDup (map f (activations db)) ->
            NoDup (map f (activations (delete_license foreign_keys db id)))).
  { intros K f H. simpl. destruct foreign_keys; [|exact H].
    now apply NoDup_map_filter. }
  constructor; simpl licenses; simpl licenses_seq; simpl activations_seq.
  - now apply NoDup_map_filter.
  - now apply NoDup_map_filter.
  - apply Forall_forall. intros l Hl. apply filter_In in Hl.
    rewrite Forall_forall in Hids. now apply Hids.
  - now apply Hnd.
  - now apply Hsub.
  - now apply Hnd.
  - unfold activations_fk in *. now apply Hsub.
Qed.

Lemma schema_validate (db : DB) (p : payload) (now : Z) :
  schema_ok db -> schema_ok (snd (api_validate db p now)).
Proof.
  intros [Hpk Hkey Hids Hapk Haids Hpair Hfk].
  destruct (validate_cases db p now)
    as [[_ ->] | [(lic & a & Hl & Ha & ->) | (lic & Hl & Hm & Ha & Hc & ->)]];
    [now constructor | |].
  - simpl snd. constructor; auto.
    + now rewrite (touch_field act_id).
    + apply (Forall_map_eq act_id (fun i => i <= activations_seq db)
               (activations db)); [now apply touch_field | exact Haids].
    + now rewrite (touch_field (fun a => (license_id a, machine_id a))).
    + unfold activations_fk in *.
      apply (Forall_map_eq license_id (fun i => i <= licenses_seq db)
               (activations db)); [now apply touch_field | exact Hfk].
  - simpl snd. constructor; simpl; auto.
    + apply NoDup_map_snoc; [exact Hapk|]. simpl. now apply issued_fresh.
    + apply Forall_app. split; [now apply issued_next|].
      constructor; [simpl; lia | constructor].
    + apply NoDup_map_snoc; [exact Hpair|]. simpl. now apply pair_absent.
    + unfold activations_fk in *. simpl.
      apply Forall_app. split; [exact Hfk|].
      constructor; [|constructor]. simpl.
      destruct (addressed_in db p lic Hl) as (row & Hrow & Hf).
      destruct (fetched_fields row lic Hf) as (Hi & _).
      rewrite Forall_forall in Hids. rewrite Hi. now apply Hids.
Qed.

Lemma schema_serve (db : DB) (r : api_request) :
  schema_ok db -> schema_ok (serve foreign_keys db r).
Proof.
  destruct r as [li form now rnd | li id | li id | p now]; simpl.
  - apply schema_create.
  - unfold api_revoke. destruct li; simpl; [apply schema_revoke | trivial].
  - unfold api_delete. destruct li; simpl; [apply schema_delete | trivial].
  - apply schema_validate.
Qed.

Lemma count_delete_other (db : DB) (id lid : Z) :
  lid <> id ->
  count_activations (delete_license foreign_keys db id) lid
  = count_activations db lid.
Proof.
  intros Hne. unfold count_activations, delete_license. simpl.
  destruct foreign_keys; [|reflexivity]. f_equal. f_equal.
  induction (activations db) as [|a l IH]; simpl; [reflexivity|].
  destruct (license_id a =? id) eqn:E1; simpl.
  - destruct (license_id a =? lid) eqn:E2; [|exact IH].
    apply Z.eqb_eq in E1, E2. congruence.
  - destruct (license_id a =? lid); simpl; congruence.
Qed.

Lemma limit_serve (db : DB) (r : api_request) :
  schema_ok db -> within_limit db -> within_limit (serve foreign_keys db r).
Proof.
  intros Hs Hinv.
  destruct r as [li form now rnd | li id | li id | p now]; simpl.
  - destruct (create_frame li form now rnd db) as [[k E] | [_ ->]];
      [|exact Hinv].
    destruct (create_inserts _ _ _ _ _ _ _ E)
      as (lic & -> & _ & _ & Hid & _ & _ & _ & Hmax & _).
    intros l Hin. simpl in Hin. apply in_app_or in Hin.
    destruct Hin as [Hin | [<- | []]].
    + exact (Hinv l Hin).
    + unfold count_activations. simpl.
      rewrite Hid, (count_fresh_license db (act_fk db Hs)). simpl.
      rewrite Hmax. destruct (py_int _); lia.
  - unfold api_revoke. destruct li; simpl; [|exact Hinv].
    intros l Hin. unfold revoke in Hin. simpl in Hin.
    apply in_map_iff in Hin. destruct Hin as (l0 & <- & Hin).
    specialize (Hinv l0 Hin).
    destruct (lic_id l0 =? id); exact Hinv.
  - unfold api_delete. destruct li; simpl; [|exact Hinv].
    intros l Hin. simpl in Hin. apply filter_In in Hin.
    destruct Hin as [Hin Hne]. apply negb_true_iff, Z.eqb_neq in Hne.
    rewrite (count_delete_other db id (lic_id l) Hne). now apply Hinv.
  - apply validate_preserves_limit; [exact (lic_pk db Hs) | exact Hinv].
Qed.

Lemma rows_serve (db : DB) (r : api_request) :
  Forall license_ok (licenses db) ->
  Forall activation_ok (activations db) ->
  Forall license_ok (licenses (serve foreign_keys db r))
  /\ Forall activation_ok (activations (serve foreign_keys db r)).
Proof.
  intros Hl Ha.
  destruct r as [li form now rnd | li id | li id | p now]; simpl.
  - destruct (create_frame li form now rnd db) as [[k E] | [_ ->]];
      [|now split].
    destruct (create_inserts _ _ _ _ _ _ _ E)
      as (lic & -> & Hk & _ & _ & Hkey & _ & Hrev & Hmax & _).
    simpl. split; [|exact Ha].
    apply Forall_app. split; [exact Hl|].
    constructor; [|constructor]. unfold license_ok.
    rewrite Hkey, Hk, Hrev, Hmax.
    split; [apply generate_key_default_format|].
    split; [destruct (py_int _); lia | now left].
  - unfold api_revoke. destruct li; simpl; [|now split].
    split; [|exact Ha]. apply Forall_map. revert Hl. apply Forall_impl.
    intros l (Hf & Hm & Hr).
    destruct (lic_id l =? id); unfold license_ok; simpl; auto.
  - unfold api_delete. destruct li; simpl; [|now split]. split.
    + apply Forall_forall. intros l Hin. apply filter_In in Hin.
      rewrite Forall_forall in Hl. now apply Hl.
    + destruct foreign_keys; [|exact Ha].
      apply Forall_forall. intros a Hin. apply filter_In in Hin.
      rewrite Forall_forall in Ha. now apply Ha.
  - destruct (validate_cases db p now)
      as [[_ ->] | [(lic & a & _ & _ & ->) | (lic & _ & Hm & _ & _ & ->)]];
      [now split | |]; simpl; (split; [exact Hl|]).
    + apply Forall_map. revert Ha. apply Forall_impl.
      intros x Hx. destruct (act_id x =? act_id a); exact Hx.
    + apply Forall_app. split; [exact Ha|].
      constructor; [|constructor]. unfold activation_ok. simpl.
      split; [exact Hm | apply machine_of_trimmed].
Qed.

(** X7.  Every handler keeps the constraints of the schema: from a
    store that satisfies them, any sequence of create, revoke, delete
    and validation requests, authorised or not, leads to a store with
    distinct license ids and keys, distinct activation ids, at most
    one activation per license and machine, and no identifier beyond
    its AUTOINCREMENT counter, whether or not foreign keys are
    enforced. *)
Theorem schema_preserved (db : DB) (rs : list api_request) :
  schema_ok db -> schema_ok (serve_all foreign_keys db rs).
Proof.
  revert db. induction rs as [|r rs IH]; intros db H; simpl; [exact H|].
  apply IH. now apply schema_serve.
Qed.

(** X8.  The activation limit holds across the whole interface, not
    only under validation: from a store that satisfies the schema and
    in which no license is over its limit, no sequence of create,
    revoke, delete and validation requests leads to a license with
    more activation rows than its [max_activations]; a deleted
    license's rows, when they are left behind, are never counted for a
    later license. *)
Theorem activation_limit_all_handlers (db : DB) (rs : list api_request) :
  schema_ok db -> within_limit db ->
  within_limit (serve_all foreign_keys db rs).
Proof.
  revert db. induction rs as [|r rs IH]; intros db Hs Hinv; simpl;
    [exact Hinv|].
  apply IH; [now apply schema_serve | now apply limit_serve].
Qed.

(** X9.  Every row the handlers write is well formed, and stays so:
    in any store reached from the empty one, each license has a key of
    the format FLUX-XXXXX-XXXXX-XXXXX-XXXXX, a [max_activations] of at
    least 1 and a [revoked] flag of 0 or 1, and each activation has a
    machine identifier that is not empty and has no blank at either
    end. *)
Theorem rows_well_formed (rs : list api_request) :
  Forall license_ok (licenses (serve_all foreign_keys init_db rs))
  /\ Forall activation_ok (activations (serve_all foreign_keys init_db rs)).
Proof.
  assert (H : forall db, Forall license_ok (licenses db) ->
                         Forall activation_ok (activations db) ->
              Forall license_ok (licenses (serve_all foreign_keys db rs))
              /\ Forall activation_ok
                   (activations (serve_all foreign_keys db rs))).
  { induction rs as [|r rs' IH]; intros db Hl Ha; simpl; [now split|].
    destruct (rows_serve db r Hl Ha) as [Hl' Ha']. now apply IH. }
  apply H; constructor.
Qed.

End Invariants.

(** ** Revoking, deleting and creating, followed by validation *)

Section Administration.
Context {B : PyBuiltins}.

Lemma run_validates_licenses (db : DB) (calls : list (payload * Z)) :
  licenses (run_validates db calls) = licenses db.
Proof.
  revert db. induction calls as [|[p now] calls IH]; intros db; simpl;
    [reflexivity|].
  rewrite IH. apply validate_alone_total.
Qed.

Lemma addressed_same_licenses (db db' : DB) (p : payload) :
  licenses db' = licenses db -> addressed db' p = addressed db p.
Proof. unfold addressed, get_by_key. now intros ->. Qed.

Lemma get_by_key_revoke (db : DB) (id : Z) (k : string) :
  get_by_key (revoke db id) k
  = option_map
      (fun l => if lic_id l =? id
                then mkLicense (lic_id l) (lic_key l) (created_at l)
                       (expires_at l) (max_activations l) 1 (notes l)
                else l)
      (get_by_key db k).
Proof.
  unfold get_by_key, revoke. simpl.
  induction (licenses db) as [|l ls IH]; simpl; [reflexivity|].
  assert (E : lic_key (if lic_id l =? id
                       then mkLicense (lic_id l) (lic_key l) (created_at l)
                              (expires_at l) (max_activations l) 1 (notes l)
                       else l) = lic_key l)
    by (destruct (lic_id l =? id); reflexivity).
  rewrite E. destruct (String.eqb (lic_key l) k); [reflexivity|].
  exact IH.
Qed.

Lemma fetched_revoke (id : Z) (row : License) :
  fetched (if lic_id row =? id
           then mkLicense (lic_id row) (lic_key row) (created_at row)
                  (expires_at row) (max_activations row) 1 (notes row)
           else row)
  = option_map
      (fun l => if lic_id l =? id
                then mkLicense (lic_id l) (lic_key l) (created_at l)
                       (expires_at l) (max_activations l) 1 (notes l)
                else l)
      (fetched row).
Proof.
  unfold fetched. destruct (lic_id row =? id) eqn:E; simpl;
    destruct (expires_at row) as [[t|s]|] eqn:Ee; simpl;
    rewrite ?E, ?Ee; try reflexivity;
    destruct (nonempty s); simpl; rewrite ?E; try reflexivity;
    destruct (convert_timestamp s); simpl; rewrite ?E; reflexivity.
Qed.

Lemma addressed_revoke (db : DB) (id : Z) (p : payload) :
  addressed (revoke db id) p
  = option_map
      (fun l => if lic_id l =? id
                then mkLicense (lic_id l) (lic_key l) (created_at l)
                       (expires_at l) (max_activations l) 1 (notes l)
                else l)
      (addressed db p).
Proof.
  unfold addressed. rewrite get_by_key_revoke.
  destruct (get_by_key db (key_of p)) as [row|]; [|reflexivity].
  simpl. apply fetched_revoke.
Qed.

(** X10.  Revocation is permanent under validation traffic: once a
    logged-in admin has revoked a license, a request for it with a key
    and a machine identifier is answered Revoked and changes nothing,
    after any number of validation requests for any keys and machines;
    the revocation itself touches no activation row. *)
Theorem revocation_is_permanent (db : DB) (id : Z) (p : payload)
    (lic : License) (calls : list (payload * Z)) (now : Z) :
  nonempty (key_of p) = true ->
  nonempty (machine_of p) = true ->
  addressed db p = Some lic ->
  lic_id lic = id ->
  let revoked_db := snd (api_revoke true id db) in
  activations revoked_db = activations db
  /\ api_validate (run_validates revoked_db calls) p now
     = (Revoked, run_validates revoked_db calls).
Proof.
  intros Hk Hm Hl Hid. simpl. split; [reflexivity|].
  eapply validate_revoked; eauto.
  - rewrite (addressed_same_licenses (revoke db id));
      [|apply run_validates_licenses].
    rewrite addressed_revoke, Hl. simpl. rewrite Hid, Z.eqb_refl. reflexivity.
  - simpl. discriminate.
Qed.

(** What a validation request reads of the store: the row its key
    addresses, the [activations] table and its counter. *)
Lemma validate_depends (db1 db2 : DB) (p : payload) (now : Z) :
  option_map fetched (get_by_key db1 (key_of p))
  = option_map fetched (get_by_key db2 (key_of p)) ->
  activations db1 = activations db2 ->
  activations_seq db1 = activations_seq db2 ->
  fst (api_validate db1 p now) = fst (api_validate db2 p now)
  /\ activations (snd (api_validate db1 p now))
     = activations (snd (api_validate db2 p now))
  /\ activations_seq (snd (api_validate db1 p now))
     = activations_seq (snd (api_validate db2 p now)).
Proof.
  intros Hl Ha Hs. unfold api_validate. rewrite !validate_unfold.
  destruct (get_by_key db1 (key_of p)) as [r1|],
           (get_by_key db2 (key_of p)) as [r2|]; simpl in Hl;
    try discriminate.
  2:{ destruct (nonempty (key_of p)); simpl; [|now repeat split].
      destruct (nonempty (machine_of p)); simpl; now repeat split. }
  injection Hl as Hl. rewrite Hl.
  unfold success, count_activations, get_activation, touch_activation,
    record_activation.
  rewrite Ha, Hs.
  repeat match goal with
         | |- context [if ?x then _ else _] => destruct x
         | |- context [match ?x with Some _ => _ | None => _ end] =>
             destruct x
         end; simpl; auto.
Qed.

Lemma validate_seq (db : DB) (p : payload) (now : Z) :
  licenses_seq (snd (api_validate db p now)) = licenses_seq db.
Proof.
  destruct (validate_cases db p now)
    as [[_ ->] | [(lic & a & _ & _ & ->) | (lic & _ & _ & _ & _ & ->)]];
    reflexivity.
Qed.

Lemma db_ext (d1 d2 : DB) :
  licenses d1 = licenses d2 -> activations d1 = activations d2 ->
  licenses_seq d1 = licenses_seq d2 ->
  activations_seq d1 = activations_seq d2 -> d1 = d2.
Proof. destruct d1, d2. simpl. now intros -> -> -> ->. Qed.

(** X11.  Revoking one license leaves the others as they were: a
    request that addresses a license with another id, or no license,
    gets the verdict it would have got, and the store after it is the
    store it would have left, with the revocation applied.  Revoking
    twice is revoking once, and revoking an id no license has changes
    nothing. *)
Theorem revoke_leaves_others (db : DB) (id : Z) :
  (forall p now,
      (forall lic, addressed db p = Some lic -> lic_id lic <> id) ->
      api_validate (revoke db id) p now
      = (fst (api_validate db p now), revoke (snd (api_validate db p now)) id))
  /\ revoke (revoke db id) id = revoke db id
  /\ ((forall l, In l (licenses db) -> lic_id l <> id) ->
      api_revoke true id db = (Done, db)).
Proof.
  split; [|split].
  - intros p now Hother.
    assert (Hl : option_map fetched (get_by_key (revoke db id) (key_of p))
                 = option_map fetched (get_by_key db (key_of p))).
    { rewrite get_by_key_revoke. unfold addressed in Hother.
      destruct (get_by_key db (key_of p)) as [row|]; [|reflexivity].
      simpl. f_equal. rewrite fetched_revoke.
      destruct (fetched row) as [lic|]; [|reflexivity]. simpl.
      specialize (Hother lic eq_refl). apply Z.eqb_neq in Hother.
      now rewrite Hother. }
    destruct (validate_depends (revoke db id) db p now Hl eq_refl eq_refl)
      as (Hv & Ha & Hs).
    rewrite (surjective_pairing (api_validate (revoke db id) p now)).
    f_equal; [exact Hv|].
    apply db_ext; simpl.
    + rewrite !(proj2 (validate_alone_total _ p now)). reflexivity.
    + exact Ha.
    + now rewrite !validate_seq.
    + exact Hs.
  - unfold revoke. simpl. f_equal. rewrite map_map. apply map_ext.
    intros l. destruct (lic_id l =? id) eqn:E; simpl; now rewrite E.
  - intros Hnone. unfold api_revoke. simpl. f_equal.
    apply db_ext; simpl; auto.
    rewrite <- (map_id (licenses db)) at 2. apply map_ext_in.
    intros l Hin. apply Hnone in Hin. apply Z.eqb_neq in Hin.
    now rewrite Hin.
Qed.

Lemma key_owner (ls : list License) (k : string) (lic l : License) :
  NoDup (map lic_key ls) ->
  find (fun x => String.eqb (lic_key x) k) ls = Some lic ->
  In l ls -> lic_key l = k -> l = lic.
Proof.
  intros Hnd Hf Hin Hk. apply find_some in Hf. destruct Hf as [Hin' Hk'].
  apply String.eqb_eq in Hk'. rewrite <- Hk' in Hk. clear Hk' k.
  revert Hnd Hin Hin'. induction ls as [|x ls IH]; simpl; [tauto|].
  intros Hnd. inversion Hnd as [|? ? Hnot Hnd']; subst.
  intros [-> | H1] [-> | H2]; auto.
  - exfalso. apply Hnot. rewrite Hk. now apply in_map.
  - exfalso. apply Hnot. rewrite <- Hk. now apply in_map.
Qed.

(** X12.  After a logged-in admin has deleted a license, its key is
    unknown: a request for it is answered NotFound, after any number
    of validation requests.  With foreign keys enforced the license's
    activation rows are gone with it; without, they are all still
    there. *)
Theorem deleted_key_not_found (foreign_keys : bool) (db : DB) (id : Z)
    (p : payload) (lic : License) (calls : list (payload * Z)) (now : Z) :
  NoDup (map lic_key (licenses db)) ->
  nonempty (key_of p) = true ->
  nonempty (machine_of p) = true ->
  addressed db p = Some lic ->
  lic_id lic = id ->
  let deleted := snd (api_delete foreign_keys true id db) in
  api_validate (run_validates deleted calls) p now
  = (NotFound, run_validates deleted calls)
  /\ (foreign_keys = true -> count_activations deleted id = 0)
  /\ (foreign_keys = false -> activations deleted = activations db).
Proof.
  intros Hnd Hk Hm Hl Hid. simpl. split; [|split].
  - apply validate_not_found; auto.
    destruct (addressed_row _ _ _ Hl) as (row & Hrow & Hf).
    destruct (fetched_fields _ _ Hf) as (Hrid & _).
    unfold get_by_key in *.
    rewrite (run_validates_licenses (delete_license foreign_keys db id)).
    simpl.
    destruct (find _ (filter _ _)) as [l|] eqn:E; [|reflexivity].
    apply find_some in E. destruct E as [Hin Hkey].
    apply filter_In in Hin. destruct Hin as [Hin Hne].
    apply String.eqb_eq in Hkey.
    rewrite (key_owner _ _ _ _ Hnd Hrow Hin Hkey), <- Hrid, Hid, Z.eqb_refl
      in Hne.
    discriminate.
  - intros ->. unfold count_activations. simpl.
    induction (activations db) as [|a l IH]; simpl; [reflexivity|].
    destruct (license_id a =? id) eqn:E; simpl; [exact IH|].
    rewrite E. exact IH.
  - now intros ->.
Qed.

(** X13.  A license created with a day count [d] that [int] accepts
    as positive expires exactly [d] days after its creation: requests
    for it are not answered Expired up to and including that instant,
    and are answered Expired, with nothing changed, at every later
    one. *)
Theorem created_license_expiry (li : bool) (form : create_form) (now : Z)
    (rnd : nat -> nat) (db db' : DB) (k : string) (d : Z) :
  api_create_key li form now rnd db = (Created k, db') ->
  py_int (form_get (form_days form) EmptyString) = Some d ->
  0 < d ->
  exists lic,
    get_by_key db' k = Some lic
    /\ created_at lic = now
    /\ expires_at lic = Some (TDatetime (now + d * us_per_day))
    /\ now + d * us_per_day <= datetime_max
    /\ forall p now',
         key_of p = k -> nonempty (machine_of p) = true ->
         (now' <= now + d * us_per_day ->
          fst (api_validate db' p now') <> Expired)
         /\ (now + d * us_per_day < now' ->
             api_validate db' p now' = (Expired, db')).
Proof.
  intros Hc Hd Hpos.
  assert (Hpd : parse_days (form_get (form_days form) EmptyString) = Some d).
  { unfold parse_days. rewrite Hd.
    destruct (d <=? 0) eqn:E; [apply Z.leb_le in E; lia | reflexivity]. }
  assert (Hrange : now + d * us_per_day <= datetime_max).
  { unfold api_create_key in Hc. destruct li; simpl in Hc; [|discriminate].
    rewrite Hpd in Hc. unfold add_days in Hc.
    destruct (999999999 <? d); simpl in Hc; [discriminate|].
    destruct (datetime_max <? now + d * us_per_day) eqn:E;
      simpl in Hc; [discriminate|].
    now apply Z.ltb_ge in E. }
  destruct (create_inserts _ _ _ _ _ _ _ Hc)
    as (lic & Hdb & Hk & Hfresh & _ & Hkey & Hat & Hrev & _ & Hexp).
  rewrite Hpd in Hexp.
  assert (Hget : get_by_key db' k = Some lic).
  { subst db'. unfold get_by_key in *. simpl.
    rewrite (find_app_fresh _ _ _ Hfresh).
    now rewrite Hkey, String.eqb_refl. }
  exists lic. repeat (split; [assumption|]).
  intros p now' Hp Hm.
  assert (Hnk : nonempty (key_of p) = true)
    by (rewrite Hp, Hk; reflexivity).
  assert (Hl : addressed db' p = Some lic).
  { unfold addressed. rewrite Hp, Hget. apply fetched_plain.
    intros s. rewrite Hexp. discriminate. }
  split.
  - intros Hle Hx.
    assert (He : expired lic now' = false).
    { unfold expired. rewrite Hexp. apply Z.ltb_ge. exact Hle. }
    unfold api_validate in Hx.
    rewrite (validate_activation_step _ db' p now' lic Hnk Hm Hl Hrev He)
      in Hx.
    destruct (get_activation _ _ _); [discriminate|].
    destruct (_ <=? _); [discriminate|].
    destruct (record_activation _ _ _ _); discriminate.
  - intros Hlt. apply (validate_expired db' p now' lic Hnk Hm Hl Hrev).
    unfold expired. rewrite Hexp. now apply Z.ltb_lt.
Qed.

(** X14.  A creation request that does not answer with a key changes
    nothing, and a successful one never touches the activations.  It
    fails, without retrying, when the generated key is already a
    license's key, and also when the day count exceeds 999999999 or
    [max_activations] exceeds what an SQLite integer holds; without a
    login it is refused. *)
Theorem create_failures (li : bool) (form : create_form) (now : Z)
    (rnd : nat -> nat) (db : DB) :
  let r := api_create_key li form now rnd db in
  ((forall k, fst r <> Created k) -> snd r = db)
  /\ activations (snd r) = activations db
  /\ (li = false -> r = (Unauthorized, db))
  /\ (li = true ->
      get_by_key db (generate_key_default rnd) <> None ->
      r = (AdminServerError, db))
  /\ (li = true ->
      (forall d, py_int (form_get (form_days form) EmptyString) = Some d ->
                 999999999 < d -> r = (AdminServerError, db))
      /\ (forall n,
            py_int (_clean (Some (form_get (form_max_activations form) "1")))
            = Some n ->
            sqlite_int_max < n -> r = (AdminServerError, db))).
Proof.
  cbv zeta. split; [|split; [|split; [|split]]].
  - intros Hno. destruct (create_frame li form now rnd db) as [[k E] | [_ H]];
      [|exact H].
    exfalso. apply (Hno k). now rewrite E.
  - destruct (create_frame li form now rnd db) as [[k E] | [_ ->]];
      [|reflexivity].
    destruct (create_inserts _ _ _ _ _ _ _ E) as (lic & -> & _).
    reflexivity.
  - now intros ->.
  - intros -> Hdup. unfold api_create_key. simpl.
    assert (Hex : existsb (fun l => String.eqb (lic_key l)
                                      (generate_key_default rnd))
                    (licenses db) = true).
    { destruct (existsb _ _) eqn:E; [reflexivity|].
      apply existsb_false_find in E. contradiction. }
    match goal with
    | |- context [match ?x with Some _ => _ | None => (AdminServerError, db)
                  end] => destruct x as [e|]
    end; [|reflexivity].
    unfold insert_license. now rewrite Hex.
  - intros ->. split.
    + intros d Hd Hbig. unfold api_create_key, parse_days, add_days. simpl.
      rewrite Hd.
      destruct (d <=? 0) eqn:E; [apply Z.leb_le in E; lia|].
      apply Z.ltb_lt in Hbig. now rewrite Hbig.
    + intros n Hn Hbig. unfold api_create_key. simpl. rewrite Hn.
      match goal with
      | |- context [match ?x with Some _ => _ | None => (AdminServerError, db)
                    end] => destruct x as [e|]
      end; [|reflexivity].
      unfold insert_license. destruct (existsb _ _); [reflexivity|].
      assert (Hm : (sqlite_int_max <? Z.max 1 n) = true)
        by (apply Z.ltb_lt; lia).
      now rewrite Hm.
Qed.

End Administration.

(** ** The listing *)

Section Listing.
Context {B : PyBuiltins}.

Lemma insert_newest_perm (l : License) (rows : list License) :
  Permutation (insert_newest l rows) (l :: rows).
Proof.
  induction rows as [|r rows IH]; simpl; [reflexivity|].
  destruct (created_at r <? created_at l); [reflexivity|].
  rewrite IH. apply perm_swap.
Qed.

Lemma newest_first_perm (rows : list License) :
  Permutation (newest_first rows) rows.
Proof.
  induction rows as [|r rows IH]; simpl; [constructor|].
  rewrite insert_newest_perm. now constructor.
Qed.

Lemma insert_newest_sorted (l : License) (rows : list License) :
  StronglySorted (fun a b => created_at b <= created_at a) rows ->
  StronglySorted (fun a b => created_at b <= created_at a)
    (insert_newest l rows).
Proof.
  induction 1 as [|r rows Hs IH Hr]; simpl; [repeat constructor|].
  destruct (created_at r <? created_at l) eqn:E.
  - apply Z.ltb_lt in E. constructor; [now constructor|].
    constructor; [lia|]. revert Hr. apply Forall_impl. intros x Hx. lia.
  - apply Z.ltb_ge in E. constructor; [exact IH|].
    apply (Permutation_Forall (Permutation_sym (insert_newest_perm l rows))).
    now constructor.
Qed.

Lemma newest_first_sorted (rows : list License) :
  StronglySorted (fun a b => created_at b <= created_at a)
    (newest_first rows).
Proof.
  induction rows as [|r rows IH]; simpl; [constructor|].
  now apply insert_newest_sorted.
Qed.

Lemma fetchall_none (rows : list License) :
  (exists row, In row rows /\ fetched row = None) -> fetchall rows = None.
Proof.
  induction rows as [|r rows IH]; simpl; intros (row & Hin & Hf);
    [contradiction|].
  destruct Hin as [-> | Hin]; [now rewrite Hf|].
  destruct (fetched r); [|reflexivity].
  rewrite IH; [reflexivity | now exists row].
Qed.

Lemma fetchall_some (rows : list License) :
  (forall row, In row rows -> fetched row <> None) ->
  exists ls,
    fetchall rows = Some ls
    /\ Forall2 (fun row l => fetched row = Some l) rows ls.
Proof.
  induction rows as [|r rows IH]; simpl; intros Hall.
  - exists []. split; [reflexivity | constructor].
  - destruct (fetched r) as [l|] eqn:E;
      [|exfalso; apply (Hall r); auto].
    destruct IH as (ls & -> & Hls); [intros row Hin; apply Hall; auto|].
    exists (l :: ls). split; [reflexivity|]. now constructor.
Qed.

Lemma fetched_all_sorted (rows ls : list License) :
  Forall2 (fun row l => fetched row = Some l) rows ls ->
  StronglySorted (fun a b => created_at b <= created_at a) rows ->
  StronglySorted (fun a b => created_at b <= created_at a) ls.
Proof.
  induction 1 as [|r l rows ls Hf H2 IH]; intros Hs; [constructor|].
  inversion Hs as [|? ? Hs' Hall]; subst.
  constructor; [now apply IH|].
  destruct (fetched_fields _ _ Hf) as (_ & _ & _ & _ & _ & Hc).
  rewrite Hc. clear IH Hs Hs' Hf Hc. induction H2 as [|r' l' rows ls Hf' H2 IH];
    [constructor|].
  inversion Hall; subst.
  destruct (fetched_fields _ _ Hf') as (_ & _ & _ & _ & _ & Hc').
  constructor; [now rewrite Hc' | now apply IH].
Qed.

Lemma fetched_all_in (rows ls : list License) (l : License) :
  Forall2 (fun row l => fetched row = Some l) rows ls ->
  In l ls -> exists row, In row rows /\ fetched row = Some l.
Proof.
  induction 1 as [|r l' rows ls Hf H2 IH]; simpl; [contradiction|].
  intros [<- | Hin]; [exists r; auto|].
  destruct (IH Hin) as (row & Hr & Hrow). exists row; auto.
Qed.

Lemma fetched_all_plain (rows ls : list License) :
  Forall2 (fun row l => fetched row = Some l) rows ls ->
  (forall row s, In row rows -> expires_at row <> Some (TText s)) ->
  ls = rows.
Proof.
  induction 1 as [|r l rows ls Hf H2 IH]; intros Hp; [reflexivity|].
  rewrite fetched_plain in Hf by (intros s; apply Hp; now left).
  injection Hf as <-. f_equal. apply IH. intros row s Hin.
  apply Hp. now right.
Qed.

(** X15.  The listing of a logged-in admin holds every license
    exactly once, as [fetchall] returns it, newest first, each with the
    number of its activation rows; in a store where no license is over
    its limit no count shown exceeds the license's [max_activations],
    and in a store with no text in the expiry column the licenses
    listed are the rows of the table.  A row the converter rejects
    makes the request a server error.  Without a login there is no
    listing. *)
Theorem api_keys_listing (db : DB) :
  api_keys false db = KeysUnauthorized
  /\ ((exists row, In row (licenses db) /\ fetched row = None) ->
      api_keys true db = KeysServerError)
  /\ ((forall row, In row (licenses db) -> fetched row <> None) ->
      exists items,
        api_keys true db = KeysListing items
        /\ (exists rows,
              Permutation rows (licenses db)
              /\ Forall2 (fun row l => fetched row = Some l) rows
                   (map fst items))
        /\ StronglySorted (fun a b => created_at b <= created_at a)
             (map fst items)
        /\ Forall (fun it => snd it = count_activations db (lic_id (fst it)))
             items
        /\ (within_limit db ->
            Forall (fun it => snd it <= max_activations (fst it)) items)
        /\ ((forall row s, In row (licenses db) ->
                           expires_at row <> Some (TText s)) ->
            Permutation (map fst items) (licenses db))).
Proof.
  split; [reflexivity|]. split.
  - intros (row & Hin & Hf). unfold api_keys. simpl.
    rewrite fetchall_none; [reflexivity|].
    exists row. split; [|exact Hf].
    exact (Permutation_in row (Permutation_sym (newest_first_perm _)) Hin).
  - intros Hall.
    destruct (fetchall_some (newest_first (licenses db))) as (ls & E & H2).
    { intros row Hin. apply Hall.
      exact (Permutation_in row (newest_first_perm _) Hin). }
    unfold api_keys. simpl. rewrite E. eexists. split; [reflexivity|].
    assert (Ef : map fst
                   (map (fun l => (l, count_activations db (lic_id l))) ls)
                 = ls).
    { rewrite map_map. simpl. apply map_id. }
    rewrite Ef.
    split; [exists (newest_first (licenses db)); split;
            [apply newest_first_perm | exact H2]|].
    split; [exact (fetched_all_sorted _ _ H2 (newest_first_sorted _))|].
    split; [apply Forall_map; apply Forall_forall; reflexivity|].
    split.
    + intros Hinv. apply Forall_map. apply Forall_forall. intros l Hin. simpl.
      destruct (fetched_all_in _ _ l H2 Hin) as (row & Hr & Hf).
      destruct (fetched_fields _ _ Hf) as (-> & _ & -> & _).
      apply Hinv. exact (Permutation_in row (newest_first_perm _) Hr).
    + intros Hp. rewrite (fetched_all_plain _ _ H2).
      * apply newest_first_perm.
      * intros row s Hin. apply Hp.
        exact (Permutation_in row (newest_first_perm _) Hin).
Qed.

End Listing.

(** ** Settings *)

Section SettingsFacts.

Lemma find_app_found {A} (f : A -> bool) (l r : list A) (x : A) :
  find f l = Some x -> find f (l ++ r) = Some x.
Proof.
  induction l as [|y l IH]; simpl; [discriminate|].
  destruct (f y); [trivial | exact IH].
Qed.

Lemma has_key_neq (k k' : string) (row : string * option string) :
  k' <> k -> has_key k row = true -> has_key k' row = false.
Proof.
  unfold has_key. intros Hne H. apply String.eqb_eq in H.
  apply String.eqb_neq. congruence.
Qed.

Lemma find_set_same (s : Settings) (k v : string) :
  find (has_key k) (set_setting s k v) = Some (k, Some v).
Proof.
  unfold set_setting. destruct (existsb (has_key k) s) eqn:E.
  - induction s as [|row s IH]; simpl in *; [discriminate|].
    destruct (has_key k row) eqn:Hr; simpl.
    + unfold has_key in *. simpl. rewrite Hr.
      apply String.eqb_eq in Hr. now rewrite Hr.
    + rewrite Hr. apply IH. exact E.
  - apply existsb_false_find in E. rewrite (find_app_fresh _ _ _ E).
    unfold has_key. simpl. now rewrite String.eqb_refl.
Qed.

Lemma find_set_other (s : Settings) (k k' v : string) :
  k' <> k ->
  find (has_key k') (set_setting s k v) = find (has_key k') s.
Proof.
  intros Hne. unfold set_setting. destruct (existsb (has_key k) s) eqn:E.
  - clear E. induction s as [|row s IH]; simpl; [reflexivity|].
    destruct (has_key k row) eqn:Hr.
    + rewrite (has_key_neq k k' row Hne Hr).
      assert (Hx : has_key k' (fst row, Some v) = false)
        by (unfold has_key in *; simpl; apply (has_key_neq k k' row Hne Hr)).
      rewrite Hx. exact IH.
    + destruct (has_key k' row); [reflexivity | exact IH].
  - destruct (find (has_key k') s) as [row|] eqn:F.
    + now apply find_app_found.
    + rewrite (find_app_fresh _ _ _ F). unfold has_key. simpl.
      apply String.eqb_neq in Hne. rewrite String.eqb_sym. now rewrite Hne.
Qed.

Lemma keys_set (s : Settings) (k v : string) :
  map fst (set_setting s k v)
  = if existsb (has_key k) s then map fst s else (map fst s ++ [k])%list.
Proof.
  unfold set_setting. destruct (existsb (has_key k) s).
  - rewrite map_map. apply map_ext. intros row.
    now destruct (has_key k row).
  - now rewrite map_app.
Qed.

Lemma existsb_has_key (s : Settings) (k : string) :
  existsb (has_key k) s = false -> ~ In k (map fst s).
Proof.
  intros E Hin. apply in_map_iff in Hin. destruct Hin as (row & Hk & Hin).
  apply existsb_false_find in E. apply (find_none _ _ E) in Hin.
  unfold has_key in Hin. rewrite Hk, String.eqb_refl in Hin. discriminate.
Qed.

(** X16.  Settings round trip: after [set_setting] of a key,
    [get_setting] of that key returns the value set, whatever default
    is passed, and [get_setting] of every other key returns what it
    returned before; the keys stay distinct, no row is removed, and of
    two values set in turn for one key the second wins. *)
Theorem setting_round_trip (s : Settings) (k v : string) :
  (forall d, get_setting (set_setting s k v) k d = Some v)
  /\ (forall k' d, k' <> k ->
        get_setting (set_setting s k v) k' d = get_setting s k' d)
  /\ (NoDup (map fst s) -> NoDup (map fst (set_setting s k v)))
  /\ (forall k', In k' (map fst s) -> In k' (map fst (set_setting s k v)))
  /\ (forall v0, set_setting (set_setting s k v0) k v = set_setting s k v).
Proof.
  split; [|split; [|split; [|split]]].
  - intros d. unfold get_setting. now rewrite find_set_same.
  - intros k' d Hne. unfold get_setting. now rewrite find_set_other.
  - intros Hnd. rewrite keys_set.
    destruct (existsb (has_key k) s) eqn:E; [exact Hnd|].
    apply NoDup_app; [exact Hnd | repeat constructor; intros [] |].
    intros x Hx [Hxk | []]. subst x. now apply (existsb_has_key s k E).
  - intros k' Hin. rewrite keys_set.
    destruct (existsb (has_key k) s); [exact Hin|].
    apply in_or_app. now left.
  - intros v0. unfold set_setting at 2 3.
    destruct (existsb (has_key k) s) eqn:E.
    + unfold set_setting.
      assert (E' : existsb (has_key k)
                     (map (fun row => if has_key k row
                                      then (fst row, Some v0) else row) s)
                   = true).
      { rewrite existsb_exists in *. destruct E as (row & Hin & Hr).
        exists (fst row, Some v0). split; [|exact Hr].
        apply in_map_iff. exists row. now rewrite Hr. }
      rewrite E', map_map. apply map_ext. intros row.
      destruct (has_key k row) eqn:Hr; [|now rewrite Hr].
      unfold has_key in *. simpl. now rewrite Hr.
    + unfold set_setting.
      assert (E' : existsb (has_key k) (s ++ [(k, Some v0)]) = true).
      { rewrite existsb_app. simpl. unfold has_key at 2. simpl.
        rewrite String.eqb_refl. apply orb_true_r. }
      rewrite E', map_app. simpl. unfold has_key at 2. simpl.
      rewrite String.eqb_refl. f_equal.
      rewrite <- (map_id s) at 2. apply map_ext_in. intros row Hin.
      apply existsb_false_find in E. apply (find_none _ _ E) in Hin.
      now rewrite Hin.
Qed.

Lemma insert_or_ignore_present (s : Settings) (k v : string) :
  existsb (has_key k) s = true -> insert_or_ignore s k v = s.
Proof. unfold insert_or_ignore. now intros ->. Qed.

Lemma insert_or_ignore_has (s : Settings) (k v : string) :
  existsb (has_key k) (insert_or_ignore s k v) = true.
Proof.
  unfold insert_or_ignore. destruct (existsb (has_key k) s) eqn:E; [exact E|].
  rewrite existsb_app. simpl. unfold has_key at 2. simpl.
  rewrite String.eqb_refl. apply orb_true_r.
Qed.

Lemma insert_or_ignore_keeps (s : Settings) (k k' v : string) :
  existsb (has_key k') s = true ->
  existsb (has_key k') (insert_or_ignore s k v) = true.
Proof.
  intros H. unfold insert_or_ignore. destruct (existsb (has_key k) s);
    [exact H|].
  rewrite existsb_app, H. reflexivity.
Qed.

Lemma find_insert_or_ignore (s : Settings) (k k' v : string)
    (row : string * option string) :
  find (has_key k') s = Some row ->
  find (has_key k') (insert_or_ignore s k v) = Some row.
Proof.
  intros H. unfold insert_or_ignore. destruct (existsb (has_key k) s);
    [exact H|].
  now apply find_app_found.
Qed.

(** X17.  Running [init_db] before every request is harmless for the
    settings: it changes no value that is stored, so a value saved by
    [set_setting] is still read after it; run twice it does what it
    does once; and after it the site name and the accent are always
    stored, with the defaults Flux Licensing and fuchsia on a fresh
    file. *)
Theorem ensure_db_keeps_settings (s : Settings) :
  ensure_db (ensure_db s) = ensure_db s
  /\ (forall k d row, find (has_key k) s = Some row ->
        get_setting (ensure_db s) k d = get_setting s k d)
  /\ (forall k v d, get_setting (ensure_db (set_setting s k v)) k d = Some v)
  /\ (forall d d', get_setting (ensure_db s) "site_name" d
                   = get_setting (ensure_db s) "site_name" d'
                   /\ get_setting (ensure_db s) "accent" d
                      = get_setting (ensure_db s) "accent" d')
  /\ (forall d, get_setting (ensure_db []) "site_name" d
                = Some "Flux Licensing"
                /\ get_setting (ensure_db []) "accent" d = Some "fuchsia").
Proof.
  assert (Hkeep : forall t k d row, find (has_key k) t = Some row ->
                    get_setting (ensure_db t) k d = get_setting t k d).
  { intros t k d row H. unfold get_setting, ensure_db.
    now rewrite (find_insert_or_ignore _ _ _ _ _
                   (find_insert_or_ignore _ _ _ _ _ H)), H. }
  split; [|split; [|split; [|split]]].
  - unfold ensure_db.
    rewrite (insert_or_ignore_present
               (insert_or_ignore (insert_or_ignore s "site_name" _) _ _)
               "site_name");
      [|apply insert_or_ignore_keeps, insert_or_ignore_has].
    apply insert_or_ignore_present, insert_or_ignore_has.
  - exact (Hkeep s).
  - intros k v d. rewrite (Hkeep _ k d _ (find_set_same s k v)).
    unfold get_setting. now rewrite find_set_same.
  - intros d d'.
    assert (H : forall k, existsb (has_key k) (ensure_db s) = true ->
                          get_setting (ensure_db s) k d
                          = get_setting (ensure_db s) k d').
    { intros k Hk. unfold get_setting.
      destruct (find (has_key k) (ensure_db s)) eqn:F; [reflexivity|].
      apply existsb_false_find in F. congruence. }
    split; apply H; unfold ensure_db.
    + apply insert_or_ignore_keeps, insert_or_ignore_has.
    + apply insert_or_ignore_has.
  - intros d. split; reflexivity.
Qed.

(** X18.  An authorised [settings_save] stores both fields cleaned:
    afterwards, and after the [init_db] of later requests, the site
    name and the accent read back are the cleaned form values, the
    defaults standing in for a field the form does not carry.  An
    unauthorised one changes nothing. *)
Theorem settings_save_stores (site_name accent : option string)
    (s : Settings) :
  settings_save false site_name accent s = (Unauthorized, s)
  /\ exists s',
       settings_save true site_name accent s = (Done, s')
       /\ (forall d,
             get_setting (ensure_db s') "site_name" d
             = Some (_clean (Some (form_get site_name "Flux Licensing")))
             /\ get_setting (ensure_db s') "accent" d
                = Some (_clean (Some (form_get accent "fuchsia"))))
       /\ (forall k d, k <> "site_name" -> k <> "accent" ->
             get_setting s' k d = get_setting s k d).
Proof.
  split; [reflexivity|]. eexists. split; [reflexivity|].
  set (v1 := _clean (Some (form_get site_name "Flux Licensing"))).
  set (v2 := _clean (Some (form_get accent "fuchsia"))).
  assert (F1 : find (has_key "site_name")
                 (set_setting (set_setting s "site_name" v1) "accent" v2)
               = Some ("site_name", Some v1)).
  { rewrite find_set_other by discriminate. apply find_set_same. }
  assert (F2 : find (has_key "accent")
                 (set_setting (set_setting s "site_name" v1) "accent" v2)
               = Some ("accent", Some v2))
    by apply find_set_same.
  unfold get_setting, ensure_db. split.
  - intros d. split.
    + now rewrite (find_insert_or_ignore _ _ _ _ _
                     (find_insert_or_ignore _ _ _ _ _ F1)).
    + now rewrite (find_insert_or_ignore _ _ _ _ _
                     (find_insert_or_ignore _ _ _ _ _ F2)).
  - intros k d H1 H2. now rewrite !find_set_other.
Qed.

End SettingsFacts.

(** ** The admin session *)

Section SessionFacts.

(** X19.  A login is accepted exactly when the cleaned user name and
    password equal the configured ones, and then the session is logged
    in; a refused login leaves the session as it was, so it neither
    logs anyone in nor logs an admin out.  The credentials of the
    environment, typed as they are set, are always accepted.  After
    [logout] the session is not logged in, and revoke and delete
    requests are refused and change nothing. *)
Theorem admin_session (cfg : Config) (username password : option string)
    (session : Session) :
  let r := login cfg username password session in
  (fst r = true <->
     _clean (Some (form_get username EmptyString)) = ADMIN_USER cfg
     /\ _clean (Some (form_get password EmptyString)) = ADMIN_PASSWORD cfg)
  /\ (fst r = true -> logged_in cfg (snd r) = true)
  /\ (fst r = false -> snd r = session)
  /\ (forall eu ep s,
        login (config_of_env (Some eu) (Some ep)) (Some eu) (Some ep) s
        = (true, Some (_clean (Some eu))))
  /\ logged_in cfg (logout session) = false
  /\ (forall fk id db,
        api_revoke (logged_in cfg (logout session)) id db = (Unauthorized, db)
        /\ api_delete fk (logged_in cfg (logout session)) id db
           = (Unauthorized, db)).
Proof.
  cbv zeta. unfold login.
  destruct (String.eqb_spec (_clean (Some (form_get username EmptyString)))
              (ADMIN_USER cfg)) as [Hu|Hu];
    destruct (String.eqb_spec (_clean (Some (form_get password EmptyString)))
                (ADMIN_PASSWORD cfg)) as [Hp|Hp]; simpl;
    (split; [split; [intros H; try discriminate; now split
                    | intros [? ?]; congruence]|]);
    (split; [intros H; try discriminate;
             rewrite Hu; apply String.eqb_refl|]);
    (split; [intros H; try discriminate; reflexivity|]);
    (split; [intros eu ep s; unfold config_of_env; simpl;
             now rewrite !String.eqb_refl|]);
    (split; [reflexivity | intros fk id db; split; reflexivity]).
Qed.

End SessionFacts.

(** ** The logo upload *)

Section LogoFacts.
Import Logo.
Context {B : PyBuiltins}.

Lemma has_dot_app (s t : string) : has_dot (s ++ t) = has_dot s || has_dot t.
Proof.
  induction s as [|c s IH]; simpl; [reflexivity|].
  now rewrite IH, orb_assoc.
Qed.

Lemma after_last_dot_ext (stem e : string) :
  has_dot e = false -> after_last_dot (stem ++ String "." e) = e.
Proof.
  intros He. induction stem as [|c stem IH]; simpl.
  - now rewrite He.
  - rewrite has_dot_app. simpl. rewrite orb_true_r. exact IH.
Qed.

Lemma after_last_dot_none (s : string) :
  has_dot s = false -> after_last_dot s = s.
Proof.
  destruct s as [|c s]; simpl; [reflexivity|].
  intros H. apply orb_false_iff in H. destruct H as [Hc Hs].
  now rewrite Hs, Hc.
Qed.

Lemma upload_by_ext (fname content : string) (replace_ok : bool)
    (fs : Files) :
  nonempty fname = true ->
  let ext := lower (after_last_dot fname) in
  let r := upload_logo true (Some (fname, content)) replace_ok fs in
  (allowed ext = false -> r = (UnsupportedType, fs))
  /\ (allowed ext = true ->
      fst r = Uploaded
      /\ (replace_ok = true ->
          snd r "logo.png" = Some content
          /\ (ext <> "png" -> snd r ("logo." ++ ext) = None)
          /\ (forall n, n <> "logo.png" -> n <> "logo." ++ ext ->
                        snd r n = fs n))
      /\ (replace_ok = false ->
          snd r ("logo." ++ ext) = Some content
          /\ (forall n, n <> "logo." ++ ext -> snd r n = fs n))).
Proof.
  intros Hne ext r. subst r. unfold upload_logo. simpl negb at 1. cbv iota.
  rewrite Hne. simpl negb at 1. cbv iota. fold ext.
  assert (Hname : (if String.eqb ext "png" then "logo.png" else "logo." ++ ext)
                  = "logo." ++ ext).
  { destruct (String.eqb_spec ext "png") as [->|]; reflexivity. }
  assert (Hpng : String.eqb ("logo." ++ ext) "logo.png" = String.eqb ext "png")
    by reflexivity.
  rewrite Hname, Hpng.
  split.
  - now intros ->.
  - intros ->. simpl negb at 1. cbv iota.
    destruct (String.eqb_spec ext "png") as [E|E]; simpl negb; cbv iota.
    + split; [reflexivity|]. rewrite E.
      change ("logo." ++ "png") with "logo.png". split.
      * intros _. split; [reflexivity|].
        split; [congruence|].
        intros n Hn _. unfold write. simpl snd.
        apply String.eqb_neq in Hn. now rewrite Hn.
      * intros _. split; [reflexivity|].
        intros n Hn. unfold write. simpl snd.
        apply String.eqb_neq in Hn. now rewrite Hn.
    + split; [reflexivity|]. cbn [append] in *. split.
      * intros ->. simpl snd. unfold replace, write.
        split; [now rewrite !String.eqb_refl|].
        split.
        -- intros _.
           assert (H0 : String.eqb
                          (String "l" (String "o" (String "g" (String "o"
                             (String "." ext)))))
                          "logo.png" = false) by exact Hpng.
           now rewrite H0, String.eqb_refl.
        -- intros n H1 H2. apply String.eqb_neq in H1, H2.
           now rewrite H1, H2.
      * intros ->. simpl snd. unfold write.
        split; [now rewrite String.eqb_refl|].
        intros n Hn. apply String.eqb_neq in Hn. now rewrite Hn.
Qed.

(** X20.  A logged-in upload is judged by what follows the last dot
    of the file name, letter case ignored; a name without a dot is
    judged as a whole.  A file whose extension is not one of png, jpg,
    jpeg, webp and ico is refused and no file changes.  An accepted
    file is stored as logo.png whatever its extension, with no file of
    its own extension left and no other file changed; when the rename
    fails it stays under logo.<ext> and logo.png is not changed. *)
Theorem upload_logo_outcome (stem e content : string) (replace_ok : bool)
    (fs : Files) :
  has_dot e = false ->
  let ext := lower e in
  let r := upload_logo true (Some (stem ++ String "." e, content))
             replace_ok fs in
  (allowed ext = false -> r = (UnsupportedType, fs))
  /\ (allowed ext = true ->
      fst r = Uploaded
      /\ (replace_ok = true ->
          snd r "logo.png" = Some content
          /\ (ext <> "png" -> snd r ("logo." ++ ext) = None)
          /\ (forall n, n <> "logo.png" -> n <> "logo." ++ ext ->
                        snd r n = fs n))
      /\ (replace_ok = false ->
          snd r ("logo." ++ ext) = Some content
          /\ (forall n, n <> "logo." ++ ext -> snd r n = fs n)))
  /\ (forall name c,
        has_dot name = false -> nonempty name = true ->
        fst (upload_logo true (Some (name, c)) replace_ok fs)
        = if allowed (lower name) then Uploaded else UnsupportedType).
Proof.
  intros He ext r.
  assert (Hne : nonempty (stem ++ String "." e) = true)
    by (destruct stem; reflexivity).
  pose proof (upload_by_ext (stem ++ String "." e) content replace_ok fs Hne)
    as H.
  cbv zeta in H. rewrite (after_last_dot_ext stem e He) in H.
  destruct H as [H1 H2]. split; [exact H1|]. split; [exact H2|].
  intros name c Hd Hn.
  pose proof (upload_by_ext name c replace_ok fs Hn) as H.
  cbv zeta in H. rewrite (after_last_dot_none name Hd) in H.
  destruct H as [H3 H4].
  destruct (allowed (lower name)); [now apply H4 | now rewrite H3].
Qed.

End LogoFacts.

(** ** The further properties on concrete inputs *)

Section MoreScenarios.
Import Scenario Examples.
#[local] Existing Instance Sample.builtins.

Ltac computed := vm_compute; try reflexivity; discriminate.

Lemma clean_trimmed_witness :
  is_space " " = true
  /\ startswith (_clean (Some "  'a b'  ")) " " = false
  /\ endswith (_clean (Some "  'a b'  ")) " " = false.
Proof.
  split; [reflexivity|].
  exact (proj1 (proj2 (clean_trimmed (Some "  'a b'  "))) " "%char eq_refl).
Defined.

Lemma clean_unquotes_witness :
  _clean (Some ("  " ++ String squote ("a b " ++ String squote EmptyString)
                ++ " ")) = "a b".
Proof.
  exact (clean_unquotes squote "  " " " "a b " (or_intror eq_refl)
           eq_refl eq_refl).
Defined.

Lemma generate_key_injective_witness :
  generate_key seed "FLUX" 4 5 = generate_key (fun i => i + 36)%nat "FLUX" 4 5.
Proof.
  apply (proj2 (generate_key_injective seed (fun i => i + 36)%nat "FLUX" 4 5)).
  intros i _. unfold seed.
  change (i + 36)%nat with (i + 1 * 36)%nat.
  now rewrite Nat.Div0.mod_add.
Defined.

Lemma validate_frame_witness :
  snd (api_validate db_one_bound (request "m2") 3000) = db_one_bound.
Proof.
  exact (proj1 (validate_frame db_one_bound (request "m2") 3000) eq_refl).
Defined.

Lemma success_reports_license_witness :
  api_validate db_one (request "m1") 2000
  = (Success key0 None 0 EmptyString, db_one_bound)
  /\ 1 <= count_activations db_one_bound 1.
Proof.
  assert (E : api_validate db_one (request "m1") 2000
              = (Success key0 None 0 EmptyString, db_one_bound))
    by reflexivity.
  split; [exact E|].
  destruct (success_reports_license _ _ _ _ _ _ _ _ E)
    as (lic & Hl & _ & _ & _ & _ & _ & Hc & _).
  vm_compute in Hl. injection Hl as Hl. rewrite <- Hl in Hc. exact Hc.
Defined.

Lemma init_db_schema : schema_ok init_db.
Proof. constructor; simpl; constructor. Qed.

Lemma schema_preserved_witness :
  schema_ok init_db
  /\ schema_ok (serve_all true init_db traffic)
  /\ schema_ok (serve_all false init_db traffic).
Proof.
  split; [exact init_db_schema|].
  split; apply schema_preserved; exact init_db_schema.
Defined.

Lemma activation_limit_all_handlers_witness :
  within_limit init_db
  /\ within_limit (serve_all true init_db traffic)
  /\ within_limit (serve_all false init_db traffic).
Proof.
  assert (H : within_limit init_db) by (intros lic []).
  split; [exact H|].
  split; apply activation_limit_all_handlers;
    solve [exact init_db_schema | exact H].
Defined.

Lemma revocation_is_permanent_witness :
  api_validate
    (run_validates (snd (api_revoke true 1 db_one_bound))
       [(request "m2", 3000); (request "m1", 3500)])
    (request "m1") 4000
  = (Revoked,
     run_validates (snd (api_revoke true 1 db_one_bound))
       [(request "m2", 3000); (request "m1", 3500)]).
Proof.
  exact (proj2 (revocation_is_permanent (B := Sample.builtins) db_one_bound 1
                  (request "m1") lic_one
                  [(request "m2", 3000); (request "m1", 3500)] 4000
                  eq_refl eq_refl eq_refl eq_refl)).
Defined.

Lemma revoke_leaves_others_witness :
  api_validate (revoke db_pair 2) (request "m1") 5000
  = (fst (api_validate db_pair (request "m1") 5000),
     revoke (snd (api_validate db_pair (request "m1") 5000)) 2).
Proof.
  apply (proj1 (revoke_leaves_others db_pair 2)).
  intros lic H. vm_compute in H. injection H as H. rewrite <- H.
  discriminate.
Defined.

Lemma deleted_key_not_found_witness :
  api_validate (snd (api_delete false true 1 db_one_bound)) (request "m1") 4000
  = (NotFound, snd (api_delete false true 1 db_one_bound))
  /\ activations (snd (api_delete false true 1 db_one_bound))
     = activations db_one_bound.
Proof.
  assert (Hnd : NoDup (map lic_key (licenses db_one_bound))).
  { vm_compute. constructor; [intros [] | constructor]. }
  destruct (deleted_key_not_found (B := Sample.builtins) false db_one_bound
              1 (request "m1") lic_one [] 4000 Hnd eq_refl eq_refl eq_refl
              eq_refl) as (H1 & _ & H3).
  split; [exact H1 | exact (H3 eq_refl)].
Defined.

Lemma created_license_expiry_witness :
  api_create_key true form_two 1000 seed init_db = (Created key0, db_two)
  /\ api_validate db_two (request "m1") (1000 + 30 * us_per_day + 1)
     = (Expired, db_two)
  /\ fst (api_validate db_two (request "m1") (1000 + 30 * us_per_day))
     <> Expired.
Proof.
  assert (E : api_create_key true form_two 1000 seed init_db
              = (Created key0, db_two)) by reflexivity.
  split; [exact E|].
  destruct (created_license_expiry (B := Sample.builtins) true form_two 1000
              seed init_db db_two key0 30 E eq_refl eq_refl) as (lic & _ & _ & _ & _ & H).
  split.
  - apply (proj2 (H (request "m1") (1000 + 30 * us_per_day + 1)
                    eq_refl eq_refl)).
    computed.
  - apply (proj1 (H (request "m1") (1000 + 30 * us_per_day)
                    eq_refl eq_refl)).
    computed.
Defined.

Lemma create_failures_witness :
  api_create_key true form_two 5000 seed db_one = (AdminServerError, db_one).
Proof.
  apply (proj1 (proj2 (proj2 (proj2
           (create_failures true form_two 5000 seed db_one)))) eq_refl).
  computed.
Defined.

Lemma api_keys_listing_witness :
  within_limit db_pair
  /\ exists items,
       api_keys true db_pair = KeysListing items
       /\ Forall (fun it => snd it <= max_activations (fst it)) items
       /\ Permutation (map fst items) (licenses db_pair).
Proof.
  assert (H : within_limit db_pair).
  { intros lic Hin. vm_compute in Hin.
    destruct Hin as [<- | [<- | []]]; computed. }
  assert (Hp : forall row s, In row (licenses db_pair) ->
                             expires_at row <> Some (TText s)).
  { intros row s Hin. vm_compute in Hin.
    destruct Hin as [<- | [<- | []]]; discriminate. }
  assert (Hr : forall row, In row (licenses db_pair) -> fetched row <> None).
  { intros row Hin. rewrite fetched_plain; [discriminate|].
    intros s. now apply Hp. }
  split; [exact H|].
  destruct (proj2 (proj2 (api_keys_listing (B := Sample.builtins) db_pair)) Hr)
    as (items & E & _ & _ & _ & Hle & Hperm).
  exists items. split; [exact E|]. split; [exact (Hle H) | exact (Hperm Hp)].
Defined.

Lemma setting_round_trip_witness :
  get_setting (set_setting renamed "accent" "teal") "site_name" "none"
  = Some "Acme".
Proof.
  rewrite (proj1 (proj2 (setting_round_trip renamed "accent" "teal"))
             "site_name" "none" ltac:(discriminate)).
  reflexivity.
Defined.

Lemma ensure_db_keeps_settings_witness :
  get_setting (ensure_db renamed) "site_name" "none" = Some "Acme".
Proof.
  rewrite (proj1 (proj2 (ensure_db_keeps_settings renamed))
             "site_name" "none" ("site_name", Some "Acme") eq_refl).
  reflexivity.
Defined.

Lemma settings_save_stores_witness :
  exists s',
    settings_save true (Some "  'Acme Tools' ") None renamed = (Done, s')
    /\ get_setting (ensure_db s') "site_name" "none" = Some "Acme Tools"
    /\ get_setting (ensure_db s') "accent" "none" = Some "fuchsia".
Proof.
  destruct (settings_save_stores (Some "  'Acme Tools' ") None renamed)
    as (_ & s' & E & H & _).
  exists s'. split; [exact E|]. exact (H "none").
Defined.

Lemma admin_session_witness :
  fst (login (config_of_env None None) (Some " admin ") (Some "'fluxadmin'")
         None) = true
  /\ logged_in (config_of_env None None)
       (snd (login (config_of_env None None) (Some " admin ")
               (Some "'fluxadmin'") None)) = true.
Proof.
  split; [reflexivity|].
  exact (proj1 (proj2 (admin_session (config_of_env None None)
                         (Some " admin ") (Some "'fluxadmin'") None))
           eq_refl).
Defined.

Lemma upload_logo_outcome_witness :
  snd (Logo.upload_logo true (Some ("Photo.JPG", "bytes")) true no_files)
      "logo.png" = Some "bytes"
  /\ snd (Logo.upload_logo true (Some ("Photo.JPG", "bytes")) true no_files)
         "logo.jpg" = None.
Proof.
  destruct (upload_logo_outcome (B := Sample.builtins) "Photo" "JPG" "bytes"
              true no_files eq_refl)
    as (_ & H & _).
  destruct (H eq_refl) as (_ & Hok & _).
  destruct (Hok eq_refl) as (H1 & H2 & _).
  split; [exact H1 | exact (H2 ltac:(discriminate))].
Defined.

End MoreScenarios.
